(** * strategy_analysis.py: moving-average crossover backtest

    A shallow embedding of [src/strategy_analysis.py].

    Numbers.  The program computes with Python floats.  The main
    development takes every float as an exact rational ([Q]); it serves the
    properties that rounding cannot change: the structure of the trade log,
    the exceptions raised, and formulas stated over the program's own
    operations.  There, equalities between computed values are stated up to
    [==] ([Qeq]) unless the two sides are the same term.  The properties that
    rounding, overflow, underflow or NaN decide are stated on the module
    [B64], which runs the strategy loop and the drawdown loop on binary64
    floats.  The operator [**] is a parameter of the metrics section: it
    returns a float or a complex number, or raises; [math.sqrt] is a
    parameter as well.

    Exceptions.  A Python exception is a value [Raise e] of the [result]
    type; [/] on a zero divisor raises [ZeroDivisionError], indexing out of
    range raises [IndexError], arithmetic on [None] raises [TypeError], and
    [**] and the conversion of an int to a float can raise [OverflowError].

    Time.  A [datetime] is the number of seconds on the naive time line
    ([Z]); a [timedelta] is a difference of two of them and its [.days] is
    the floor of that difference over 86400.  The [(year, month)] of a
    datetime is a parameter of [monthly_win_rate]. *)

From Stdlib Require Import ZArith QArith Qminmax Qround List Sorted Bool Lia Lqa.
From Stdlib Require Import Floats.
Import ListNotations.

Local Open Scope Q_scope.

(** ** Exceptions *)

Inductive exn : Set :=
  IndexError | ZeroDivisionError | TypeError | OverflowError.

Inductive result (A : Type) : Type :=
| Ok (a : A)
| Raise (e : exn).

Arguments Ok {A} a.
Arguments Raise {A} e.

Definition bind {A B : Type} (m : result A) (k : A -> result B) : result B :=
  match m with
  | Ok a => k a
  | Raise e => Raise e
  end.

Notation "x <- m ;; k" := (bind m (fun x => k))
  (at level 61, m at next level, right associativity).
Notation "' p <- m ;; k" := (bind m (fun x => match x with p => k end))
  (at level 61, p pattern, m at next level, right associativity).

(** ** Python primitives *)

(** [x < y] on floats. *)
Definition Qlt_bool (x y : Q) : bool := negb (Qle_bool y x).

(** [x / y]: true division, raising on a zero divisor. *)
Definition fdiv (x y : Q) : result Q :=
  if Qeq_bool y 0 then Raise ZeroDivisionError else Ok (x / y).

(** [sum(l)]. *)
Definition sum (l : list Q) : Q := fold_left Qplus l 0.

(** [l[i]] with Python's negative indices. *)
Definition index {A : Type} (l : list A) (i : Z) : result A :=
  let n := Z.of_nat (length l) in
  let j := (if i <? 0 then i + n else i)%Z in
  if ((j <? 0) || (n <=? j))%Z then Raise IndexError
  else match nth_error l (Z.to_nat j) with
       | Some a => Ok a
       | None => Raise IndexError
       end.

(** A slice bound as [l[start:stop]] resolves it: a negative bound counts
    from the end, and the outcome is clamped to [0 .. len(l)]. *)
Definition clamp (n : Z) (i : Z) : Z :=
  let j := (if i <? 0 then i + n else i)%Z in
  Z.max 0 (Z.min n j).

(** [l[start:stop]]; [None] is an omitted bound. *)
Definition slice {A : Type} (l : list A) (start stop : option Z) : list A :=
  let n := Z.of_nat (length l) in
  let lo := match start with Some i => clamp n i | None => 0%Z end in
  let hi := match stop with Some i => clamp n i | None => n end in
  firstn (Z.to_nat (hi - lo)) (skipn (Z.to_nat lo) l).

(** [(t2 - t1).days] for the timedelta of [d] seconds. *)
Definition timedelta_days (d : Z) : Z := (d / 86400)%Z.

(** ** class Trade *)

Module Trade.

Record t : Type := mk {
  time : Z;
  price : Q;
  position : Z;
  exit_time : option Z;
  exit_price : option Q
}.

(** [Trade(time, price, position)] *)
Definition init (time : Z) (price : Q) (position : Z) : t :=
  mk time price position None None.

(** [self.close(time, price)] *)
Definition close (self : t) (time : Z) (price : Q) : t :=
  mk (Trade.time self) (Trade.price self) (Trade.position self)
     (Some time) (Some price).

(** [self.pnl()] *)
Definition pnl (self : t) : result Q :=
  match exit_price self with
  | None => Ok 0
  | Some xp =>
      if (position self =? 1)%Z
      then q <- fdiv xp (price self) ;; Ok (q - 1)
      else q <- fdiv (price self) xp ;; Ok (q - 1)
  end.

(** [self.exit_price is None] *)
Definition is_open (self : t) : bool :=
  match exit_price self with None => true | Some _ => false end.

End Trade.

(** ** Bars *)

(** A row of [read_data]: the dict with the keys of the CSV header. *)
Record Row : Type := mkRow {
  Datetime : Z;
  Open : Q;
  High : Q;
  Low : Q;
  Close : Q;
  Volume : Q
}.

(** ** run_strategy *)

Section Strategy.

Variables SHORT_WINDOW LONG_WINDOW : Z.

(** The local variables of [run_strategy] that live across iterations of
    its loop; [ret] holds the value last assigned to it (0 before the first
    bar, where Python has it unbound). *)
Record State : Type := mkState {
  closes : list Q;
  position : Z;
  equity : Q;
  last_close : Q;
  trades : list Trade.t;
  eq_curve : list (Z * Q);
  ret : Q
}.

(** [trades[-1].close(time, price)]: the last Trade object of the list is
    updated in place. *)
Definition close_last (trades : list Trade.t) (time : Z) (price : Q)
  : result (list Trade.t) :=
  tr <- index trades (-1) ;;
  Ok (removelast trades ++ [Trade.close tr time price]).

(** [len(closes) > LONG_WINDOW] *)
Definition eligible (closes : list Q) : bool :=
  (Z.of_nat (length closes) >? LONG_WINDOW)%Z.

Definition short_ma (closes : list Q) : result Q :=
  fdiv (sum (slice closes (Some (- SHORT_WINDOW)%Z) None)) (inject_Z SHORT_WINDOW).

Definition long_ma (closes : list Q) : result Q :=
  fdiv (sum (slice closes (Some (- LONG_WINDOW)%Z) None)) (inject_Z LONG_WINDOW).

Definition prev_short_ma (closes : list Q) : result Q :=
  fdiv (sum (slice closes (Some (- SHORT_WINDOW - 1)%Z) (Some (-1)%Z)))
       (inject_Z SHORT_WINDOW).

Definition prev_long_ma (closes : list Q) : result Q :=
  fdiv (sum (slice closes (Some (- LONG_WINDOW - 1)%Z) (Some (-1)%Z)))
       (inject_Z LONG_WINDOW).

(** The [if position == 0: ... elif position == 1: ... elif position == -1]
    block: the new position and trade log. *)
Definition transition (position : Z) (trades : list Trade.t)
    (cross_up cross_dn : bool) (time : Z) (close : Q)
  : result (Z * list Trade.t) :=
  if (position =? 0)%Z then
    if cross_up then Ok (1%Z, trades ++ [Trade.init time close 1])
    else if cross_dn then Ok ((-1)%Z, trades ++ [Trade.init time close (-1)])
    else Ok (position, trades)
  else if (position =? 1)%Z then
    if cross_dn then
      ts <- close_last trades time close ;;
      Ok ((-1)%Z, ts ++ [Trade.init time close (-1)])
    else Ok (position, trades)
  else if (position =? -1)%Z then
    if cross_up then
      ts <- close_last trades time close ;;
      Ok (1%Z, ts ++ [Trade.init time close 1])
    else Ok (position, trades)
  else Ok (position, trades).

(** The body of [if len(closes) > LONG_WINDOW:]. *)
Definition crossover (position : Z) (trades : list Trade.t)
    (closes : list Q) (time : Z) (close : Q) : result (Z * list Trade.t) :=
  sm <- short_ma closes ;;
  lm <- long_ma closes ;;
  psm <- prev_short_ma closes ;;
  plm <- prev_long_ma closes ;;
  let cross_up := Qle_bool psm plm && Qlt_bool lm sm in
  let cross_dn := Qle_bool plm psm && Qlt_bool sm lm in
  transition position trades cross_up cross_dn time close.

(** The position block of a bar, skipped until the history is long
    enough; [closes] already holds the bar's close. *)
Definition signal_block (st : State) (row : Row) (closes : list Q)
  : result (Z * list Trade.t) :=
  if eligible closes
  then crossover (position st) (trades st) closes (Datetime row) (Close row)
  else Ok (position st, trades st).

(** One iteration of [for row in rows:]. *)
Definition step (st : State) (row : Row) : result State :=
  let close := Close row in
  let closes := closes st ++ [close] in
  '(position, trades) <- signal_block st row closes ;;
  q <- fdiv close (last_close st) ;;
  let ret := inject_Z position * (q - 1) in
  let equity := equity st * (1 + ret) in
  Ok (mkState closes position equity close trades
              (eq_curve st ++ [(Datetime row, equity)]) ret).

Fixpoint run_loop (st : State) (rows : list Row) : result State :=
  match rows with
  | [] => Ok st
  | row :: rows' => st' <- step st row ;; run_loop st' rows'
  end.

(** The states after each bar, in order. *)
Fixpoint run_states (st : State) (rows : list Row) : result (list State) :=
  match rows with
  | [] => Ok []
  | row :: rows' =>
      st' <- step st row ;;
      sts <- run_states st' rows' ;;
      Ok (st' :: sts)
  end.

(** The locals before the loop; [first] is [rows[0]]. *)
Definition init_state (first : Row) : State :=
  mkState [] 0%Z 1 (Close first) [] [] 0.

(** The [# close last trade] block. *)
Definition close_open_trade (trades : list Trade.t) (rows : list Row)
  : result (list Trade.t) :=
  match trades with
  | [] => Ok trades
  | _ =>
      tr <- index trades (-1) ;;
      if Trade.is_open tr then
        lastrow <- index rows (-1) ;;
        close_last trades (Datetime lastrow) (Close lastrow)
      else Ok trades
  end.

Definition run_strategy (rows : list Row)
  : result (list (Z * Q) * list Trade.t) :=
  first <- index rows 0 ;;
  st <- run_loop (init_state first) rows ;;
  ts <- close_open_trade (trades st) rows ;;
  Ok (eq_curve st, ts).

End Strategy.

(** ** buy_and_hold *)

Fixpoint buy_and_hold_loop (equity last : Q) (rows : list Row)
  : result (list (Z * Q)) :=
  match rows with
  | [] => Ok []
  | row :: rows' =>
      let close := Close row in
      q <- fdiv close last ;;
      let equity := equity * q in
      rest <- buy_and_hold_loop equity close rows' ;;
      Ok ((Datetime row, equity) :: rest)
  end.

Definition buy_and_hold (rows : list Row) : result (list (Z * Q)) :=
  first <- index rows 0 ;;
  buy_and_hold_loop 1 (Close first) rows.

(** ** Numbers *)

(** The value of an expression built on [**]: a float, or a complex number,
    which [**] returns for a negative base and a fractional exponent. *)
Inductive number : Type :=
| Float (x : Q)
| Complex (re im : Q).

Definition real_part (a : number) : Q :=
  match a with Float x => x | Complex re _ => re end.

Definition imag_part (a : number) : Q :=
  match a with Float _ => 0 | Complex _ im => im end.

(** [a + b] *)
Definition number_add (a b : number) : number :=
  match a, b with
  | Float x, Float y => Float (x + y)
  | _, _ => Complex (real_part a + real_part b) (imag_part a + imag_part b)
  end.

(** [sum(l)] of numbers. *)
Definition number_sum (l : list number) : number :=
  fold_left number_add l (Float 0).

(** [a - y] for a float [y] *)
Definition number_sub (a : number) (y : Q) : number :=
  match a with
  | Float x => Float (x - y)
  | Complex re im => Complex (re - y) im
  end.

(** [a * y] for a float [y] *)
Definition number_mul (a : number) (y : Q) : number :=
  match a with
  | Float x => Float (x * y)
  | Complex re im => Complex (re * y) (im * y)
  end.

(** [a / y] for a float or an int [y] *)
Definition number_div (a : number) (y : Q) : result number :=
  if Qeq_bool y 0 then Raise ZeroDivisionError
  else match a with
       | Float x => Ok (Float (x / y))
       | Complex re im => Ok (Complex (re / y) (im / y))
       end.

(** [x / b] for a float [x] *)
Definition number_rdiv (x : Q) (b : number) : result number :=
  match b with
  | Float y => q <- fdiv x y ;; Ok (Float q)
  | Complex re im =>
      let m := re * re + im * im in
      if Qeq_bool m 0 then Raise ZeroDivisionError
      else Ok (Complex (x * re / m) (- (x * im) / m))
  end.

(** [a != 0] *)
Definition number_nonzero (a : number) : bool :=
  match a with
  | Float x => negb (Qeq_bool x 0)
  | Complex re im => negb (Qeq_bool re 0 && Qeq_bool im 0)
  end.

(** ** calc_metrics *)

Section Metrics.

(** [a ** y]: it returns a float or a complex number, or raises
    (OverflowError when the result is out of range, ZeroDivisionError for a
    zero base and a negative exponent).  [math.sqrt] is applied to the
    constant 6552 only. *)
Variable fpow : number -> Q -> result number.
Variable fsqrt : Q -> Q.

(** The first block of [calc_metrics]: [annual_ret]. *)
Definition annual_return (eq_curve : list (Z * Q)) : result number :=
  first <- index eq_curve 0 ;;
  last <- index eq_curve (-1) ;;
  let start_val := snd first in
  let end_val := snd last in
  let days := timedelta_days (fst last - fst first) in
  years <- fdiv (inject_Z days) 365 ;;
  base <- fdiv end_val start_val ;;
  e <- fdiv 1 years ;;
  p <- fpow (Float base) e ;;
  Ok (number_sub p 1).

(** [for i in range(1, len(eq_curve))]: [prev] is [eq_curve[i-1][1]]. *)
Fixpoint step_returns (prev : Q) (values : list Q) : result (list Q) :=
  match values with
  | [] => Ok []
  | v :: values' =>
      q <- fdiv v prev ;;
      rets <- step_returns v values' ;;
      Ok ((q - 1) :: rets)
  end.

Definition returns (eq_curve : list (Z * Q)) : result (list Q) :=
  match map snd eq_curve with
  | [] => Ok []
  | v :: values => step_returns v values
  end.

(** [(x-avg)**2 for x in rets], in the order in which [sum] draws the
    squares. *)
Fixpoint squares (avg : Q) (rets : list Q) : result (list number) :=
  match rets with
  | [] => Ok []
  | x :: rets' =>
      sq <- fpow (Float (x - avg)) 2 ;;
      sqs <- squares avg rets' ;;
      Ok (sq :: sqs)
  end.

(** The [if rets: ... else: sharpe = 0] block. *)
Definition sharpe_of (rets : list Q) : result number :=
  match rets with
  | [] => Ok (Float 0)
  | _ :: _ =>
      let n := Z.of_nat (length rets) in
      avg <- fdiv (sum rets) (inject_Z n) ;;
      sqs <- squares avg rets ;;
      var <- number_div (number_sum sqs) (inject_Z (n - 1)) ;;
      std <- fpow var (1 # 2) ;;
      if number_nonzero std
      then q <- number_rdiv avg std ;; Ok (number_mul q (fsqrt 6552))
      else Ok (Float 0)
  end.

Definition sharpe (eq_curve : list (Z * Q)) : result number :=
  rets <- returns eq_curve ;;
  sharpe_of rets.

(** [for _, eq in eq_curve:] of the max drawdown block. *)
Fixpoint dd_loop (max_equity max_dd : Q) (values : list Q) : result Q :=
  match values with
  | [] => Ok max_dd
  | eq :: values' =>
      let max_equity := if Qlt_bool max_equity eq then eq else max_equity in
      dd <- fdiv (max_equity - eq) max_equity ;;
      let max_dd := if Qlt_bool max_dd dd then dd else max_dd in
      dd_loop max_equity max_dd values'
  end.

Definition max_drawdown (eq_curve : list (Z * Q)) : result Q :=
  first <- index eq_curve 0 ;;
  dd_loop (snd first) 0 (map snd eq_curve).

Definition calc_metrics (eq_curve : list (Z * Q))
  : result (number * number * Q * number) :=
  annual_ret <- annual_return eq_curve ;;
  sharpe <- sharpe eq_curve ;;
  max_dd <- max_drawdown eq_curve ;;
  mar <- (if negb (Qeq_bool max_dd 0) then number_div annual_ret max_dd
          else Ok (Float 0)) ;;
  Ok (annual_ret, sharpe, max_dd, mar).

End Metrics.

(** ** trade_frequency *)

Definition trade_frequency (trades : list Trade.t) : result Q :=
  match trades with
  | [] => Ok 0
  | _ :: _ =>
      lasttr <- index trades (-1) ;;
      first <- index trades 0 ;;
      match Trade.exit_time lasttr with
      | None => Raise TypeError
      | Some xt =>
          let days := timedelta_days (xt - Trade.time first) in
          months <- fdiv (inject_Z days) 30 ;;
          let n := inject_Z (Z.of_nat (length trades)) in
          if negb (Qeq_bool months 0) then fdiv n months else Ok n
      end
  end.

(** ** Definitions used to state the properties *)

(** The number of trades of a log with no exit set. *)
Fixpoint count_open (trades : list Trade.t) : nat :=
  match trades with
  | [] => O
  | tr :: trades' =>
      if Trade.is_open tr then S (count_open trades') else count_open trades'
  end.

Definition is_closed (tr : Trade.t) : Prop := Trade.is_open tr = false.

(** The equity values obtained by compounding the per-step multipliers
    [1 + r] from [equity]. *)
Fixpoint compound (equity : Q) (rets : list Q) : list Q :=
  match rets with
  | [] => []
  | r :: rets' => let e := equity * (1 + r) in e :: compound e rets'
  end.

(** The running maximum of [values[0..i]]. *)
Fixpoint running_max (values : list Q) (i : nat) : Q :=
  match i with
  | O => nth O values 0
  | S j => Qmax (running_max values j) (nth (S j) values 0)
  end.

(** The drawdown at point [i]: [(peak - equity) / peak]. *)
Definition drawdown_at (values : list Q) (i : nat) : Q :=
  (running_max values i - nth i values 0) / running_max values i.

(** A bar whose four prices are [c]. *)
Definition bar (t : Z) (c : Q) : Row := mkRow t c c c c 0.

(** Fifty bars closing at 10, then a fall to 1 and a rise to 3. *)
Definition fall_rise_rows : list Row :=
  map (fun i => bar (Z.of_nat i) 10) (seq 0 50) ++ [bar 50 1; bar 51 3].

(** Three bars closing at 10, then a fall to 1 and a rise to 3; used with
    the windows 1 and 3. *)
Definition spike_rows : list Row :=
  [bar 1 10; bar 2 10; bar 3 10; bar 4 1; bar 5 3].

(** A power to run the metrics on examples: for a float base it is the
    exact power at a whole exponent, raising on a zero base with a negative
    exponent, and the exact square root of 0 and of 1 at the exponent 1/2;
    the examples use it nowhere else. *)
Definition ipow (a : number) (y : Q) : result number :=
  match a with
  | Float x =>
      if Qeq_bool x 0 && Qlt_bool y 0 then Raise ZeroDivisionError
      else if Qeq_bool y (1 # 2) && (Qeq_bool x 0 || Qeq_bool x 1)
           then Ok (Float x)
           else Ok (Float (x ^ Qfloor y))
  | Complex _ _ => Ok a
  end.

(** The trade log that goes with a position: empty while flat, and
    otherwise closed trades followed by one open trade of that direction. *)
Definition log_inv (position : Z) (trades : list Trade.t) : Prop :=
  (position = 0%Z /\ trades = []) \/
  ((position = 1%Z \/ position = (-1)%Z) /\
   exists old tr, trades = old ++ [tr] /\ Forall is_closed old /\
                  Trade.is_open tr = true /\ Trade.position tr = position).

(** ** monthly_win_rate *)

Section MonthlyWinRate.

(** [(dt.year, dt.month)] of a datetime. *)
Variable year_month : Z -> Z * Z.

(** Equality of two [(year, month)] keys. *)
Definition key_eqb (k1 k2 : Z * Z) : bool :=
  ((fst k1 =? fst k2) && (snd k1 =? snd k2))%Z.

(** [by_month.setdefault(key, [eq, eq])] followed by
    [by_month[key][1] = eq], on the dict in insertion order; a value is the
    two-element list [[start, end]]. *)
Fixpoint record_point (by_month : list ((Z * Z) * (Q * Q))) (key : Z * Z)
    (eq : Q) : list ((Z * Z) * (Q * Q)) :=
  match by_month with
  | [] => [(key, (eq, eq))]
  | (k, (start, end_)) :: rest =>
      if key_eqb k key then (k, (start, eq)) :: rest
      else (k, (start, end_)) :: record_point rest key eq
  end.

(** The first loop of [monthly_win_rate]. *)
Definition group_by_month (eq_curve : list (Z * Q))
  : list ((Z * Z) * (Q * Q)) :=
  fold_left (fun by_month p => record_point by_month (year_month (fst p)) (snd p))
            eq_curve [].

(** The second loop: the months whose end exceeds their start. *)
Definition count_wins (by_month : list ((Z * Z) * (Q * Q))) : Z :=
  fold_left (fun wins kv =>
               if Qlt_bool (fst (snd kv)) (snd (snd kv))
               then (wins + 1)%Z else wins)
            by_month 0%Z.

Definition monthly_win_rate (eq_curve : list (Z * Q)) : result Q :=
  let by_month := group_by_month eq_curve in
  fdiv (inject_Z (count_wins by_month))
       (inject_Z (Z.of_nat (length by_month))).

End MonthlyWinRate.

(** ** More definitions used to state properties *)

(** A log in which each trade is closed at the entry of the next one, which
    takes the opposite direction. *)
Fixpoint chained (trades : list Trade.t) : Prop :=
  match trades with
  | a :: (b :: _) as rest =>
      Trade.exit_time a = Some (Trade.time b) /\
      Trade.exit_price a = Some (Trade.price b) /\
      Trade.position b = (- Trade.position a)%Z /\
      chained rest
  | _ => True
  end.

(** A calendar of 30-day months, to run [monthly_win_rate]. *)
Definition thirty_day_months (t : Z) : Z * Z :=
  (0%Z, (t / 2592000)%Z).

(** The timestamp [t] and the price [p] are those of one bar of [rows]. *)
Definition at_bar (rows : list Row) (t : Z) (p : Q) : Prop :=
  exists row, In row rows /\ Datetime row = t /\ Close row = p.

(** A trade entered at a bar of [rows] and, when closed, closed at one. *)
Definition from_bars (rows : list Row) (tr : Trade.t) : Prop :=
  at_bar rows (Trade.time tr) (Trade.price tr) /\
  ((Trade.exit_time tr = None /\ Trade.exit_price tr = None) \/
   exists xt xp, Trade.exit_time tr = Some xt /\ Trade.exit_price tr = Some xp /\
                 at_bar rows xt xp).

(** Bars whose closes make the windows 1 and 3 enter a short, flip to a
    long and flip back to a short. *)
Definition zigzag_rows : list Row :=
  [bar 1 10; bar 2 10; bar 3 10; bar 4 1; bar 5 20; bar 6 1].


(** * The program on binary64 floats

    The strategy loop and the drawdown loop again, with Python's floats as
    the binary64 floats of the machine, for the properties that rounding,
    overflow, underflow and NaN decide.  The builtin [sum] is a parameter
    of the loop: the way it rounds depends on the interpreter. *)

Module B64.

Local Open Scope float_scope.

(** [float(n)] of an int [n], as arithmetic between an int and a float
    takes it: the nearest float, ties to even; Python raises OverflowError
    when [n] is out of range. *)
Definition float_of_int (n : Z) : result float :=
  let x := SF2Prim (binary_normalize prec emax n 0 false) in
  if is_infinity x then Raise OverflowError else Ok x.

(** [x / y]: true division, raising on a zero divisor. *)
Definition fdiv (x y : float) : result float :=
  if y =? 0 then Raise ZeroDivisionError else Ok (x / y).

(** [class Trade] *)
Module Trade.

Record t : Type := mk {
  time : Z;
  price : float;
  position : Z;
  exit_time : option Z;
  exit_price : option float
}.

Definition init (time : Z) (price : float) (position : Z) : t :=
  mk time price position None None.

Definition close (self : t) (time : Z) (price : float) : t :=
  mk (Trade.time self) (Trade.price self) (Trade.position self)
     (Some time) (Some price).

Definition pnl (self : t) : result float :=
  match exit_price self with
  | None => Ok 0
  | Some xp =>
      if (position self =? 1)%Z
      then q <- fdiv xp (price self) ;; Ok (q - 1)
      else q <- fdiv (price self) xp ;; Ok (q - 1)
  end.

Definition is_open (self : t) : bool :=
  match exit_price self with None => true | Some _ => false end.

End Trade.

Record Row : Type := mkRow {
  Datetime : Z;
  Open : float;
  High : float;
  Low : float;
  Close : float;
  Volume : float
}.

Section Strategy.

(** [sum] on a list of floats. *)
Variable fsum : list float -> float.

Variables SHORT_WINDOW LONG_WINDOW : Z.

Record State : Type := mkState {
  closes : list float;
  position : Z;
  equity : float;
  last_close : float;
  trades : list Trade.t;
  eq_curve : list (Z * float);
  ret : float
}.

Definition close_last (trades : list Trade.t) (time : Z) (price : float)
  : result (list Trade.t) :=
  tr <- index trades (-1) ;;
  Ok (removelast trades ++ [Trade.close tr time price]).

Definition eligible (closes : list float) : bool :=
  (Z.of_nat (length closes) >? LONG_WINDOW)%Z.

(** [sum(window) / n] for an int [n]. *)
Definition average (window : list float) (n : Z) : result float :=
  let s := fsum window in
  d <- float_of_int n ;;
  fdiv s d.

Definition short_ma (closes : list float) : result float :=
  average (slice closes (Some (- SHORT_WINDOW)%Z) None) SHORT_WINDOW.

Definition long_ma (closes : list float) : result float :=
  average (slice closes (Some (- LONG_WINDOW)%Z) None) LONG_WINDOW.

Definition prev_short_ma (closes : list float) : result float :=
  average (slice closes (Some (- SHORT_WINDOW - 1)%Z) (Some (-1)%Z))
          SHORT_WINDOW.

Definition prev_long_ma (closes : list float) : result float :=
  average (slice closes (Some (- LONG_WINDOW - 1)%Z) (Some (-1)%Z))
          LONG_WINDOW.

Definition transition (position : Z) (trades : list Trade.t)
    (cross_up cross_dn : bool) (time : Z) (close : float)
  : result (Z * list Trade.t) :=
  if (position =? 0)%Z then
    if cross_up then Ok (1%Z, trades ++ [Trade.init time close 1])
    else if cross_dn then Ok ((-1)%Z, trades ++ [Trade.init time close (-1)])
    else Ok (position, trades)
  else if (position =? 1)%Z then
    if cross_dn then
      ts <- close_last trades time close ;;
      Ok ((-1)%Z, ts ++ [Trade.init time close (-1)])
    else Ok (position, trades)
  else if (position =? -1)%Z then
    if cross_up then
      ts <- close_last trades time close ;;
      Ok (1%Z, ts ++ [Trade.init time close 1])
    else Ok (position, trades)
  else Ok (position, trades).

(** The body of [if len(closes) > LONG_WINDOW:]. *)
Definition crossover (position : Z) (trades : list Trade.t)
    (closes : list float) (time : Z) (close : float)
  : result (Z * list Trade.t) :=
  sm <- short_ma closes ;;
  lm <- long_ma closes ;;
  psm <- prev_short_ma closes ;;
  plm <- prev_long_ma closes ;;
  let cross_up := (psm <=? plm) && (lm <? sm) in
  let cross_dn := (plm <=? psm) && (sm <? lm) in
  transition position trades cross_up cross_dn time close.

Definition signal_block (st : State) (row : Row) (closes : list float)
  : result (Z * list Trade.t) :=
  if eligible closes
  then crossover (position st) (trades st) closes (Datetime row) (Close row)
  else Ok (position st, trades st).

(** One iteration of [for row in rows:]; the int [position] becomes a
    float when it is multiplied. *)
Definition step (st : State) (row : Row) : result State :=
  let close := Close row in
  let closes := closes st ++ [close] in
  '(position, trades) <- signal_block st row closes ;;
  q <- fdiv close (last_close st) ;;
  p <- float_of_int position ;;
  let ret := p * (q - 1) in
  let equity := equity st * (1 + ret) in
  Ok (mkState closes position equity close trades
              (eq_curve st ++ [(Datetime row, equity)]) ret).

Fixpoint run_loop (st : State) (rows : list Row) : result State :=
  match rows with
  | [] => Ok st
  | row :: rows' => st' <- step st row ;; run_loop st' rows'
  end.

(** The states after each bar, in order. *)
Fixpoint run_states (st : State) (rows : list Row) : result (list State) :=
  match rows with
  | [] => Ok []
  | row :: rows' =>
      st' <- step st row ;;
      sts <- run_states st' rows' ;;
      Ok (st' :: sts)
  end.

Definition init_state (first : Row) : State :=
  mkState [] 0%Z 1 (Close first) [] [] 0.

Definition close_open_trade (trades : list Trade.t) (rows : list Row)
  : result (list Trade.t) :=
  match trades with
  | [] => Ok trades
  | _ =>
      tr <- index trades (-1) ;;
      if Trade.is_open tr then
        lastrow <- index rows (-1) ;;
        close_last trades (Datetime lastrow) (Close lastrow)
      else Ok trades
  end.

Definition run_strategy (rows : list Row)
  : result (list (Z * float) * list Trade.t) :=
  first <- index rows 0 ;;
  st <- run_loop (init_state first) rows ;;
  ts <- close_open_trade (trades st) rows ;;
  Ok (eq_curve st, ts).

End Strategy.

(** The max drawdown block of [calc_metrics]. *)
Fixpoint dd_loop (max_equity max_dd : float) (values : list float)
  : result float :=
  match values with
  | [] => Ok max_dd
  | eq :: values' =>
      let max_equity := if max_equity <? eq then eq else max_equity in
      dd <- fdiv (max_equity - eq) max_equity ;;
      let max_dd := if max_dd <? dd then dd else max_dd in
      dd_loop max_equity max_dd values'
  end.

Definition max_drawdown (eq_curve : list (Z * float)) : result float :=
  first <- index eq_curve 0 ;;
  dd_loop (snd first) 0 (map snd eq_curve).

(** Two ways in which interpreters compute [sum] on floats: adding from
    the left, and Neumaier's compensated summation, which adds the
    accumulated rounding error at the end when it is finite and not 0. *)
Definition sum_left (l : list float) : float := fold_left add l 0.

Definition sum_compensated (l : list float) : float :=
  let '(s, c) :=
    fold_left (fun '(s, c) x =>
                 let t := s + x in
                 if abs x <=? abs s
                 then (t, c + ((s - t) + x))
                 else (t, c + ((x - t) + s)))
              l (0, 0) in
  if negb (c =? 0) && is_finite c then s + c else s.

(** A bar whose four prices are [c]. *)
Definition bar (t : Z) (c : float) : Row := mkRow t c c c c 0.

(** [n] bars closing at [c], at the times [0 .. n-1]. *)
Definition flat_rows (n : nat) (c : float) : list Row :=
  map (fun i => bar (Z.of_nat i) c) (seq 0 n).

(** Every price move [close / last_close - 1] of the bars is finite,
    [last] being the close before the first of them. *)
Fixpoint finite_moves (last : float) (rows : list Row) : bool :=
  match rows with
  | [] => true
  | row :: rows' =>
      is_finite (Close row / last - 1) && finite_moves (Close row) rows'
  end.

(** Three bars closing at 1, then closes that grow by the factor
    [2 - 2^-13] from bar to bar; used with the windows 3 and 1, which enter
    a short at the fourth bar and keep it. *)
Definition squeeze_rows (n : nat) : list Row :=
  map (fun i => bar (Z.of_nat i)
                    (Nat.iter (i - 2) (fun c => c * 0x1.fff8p+0) 1))
      (seq 0 n).

End B64.

(** * Properties *)

(** ** The exception monad and the primitives *)

Lemma bind_Ok {A B : Type} (m : result A) (k : A -> result B) (b : B) :
  bind m k = Ok b -> exists a, m = Ok a /\ k a = Ok b.
Proof.
  destruct m as [a|e]; simpl; intros H; [exists a; split; trivial | discriminate].
Qed.

Ltac inv_bind H :=
  let a := fresh "a" in
  let Ha := fresh "H" a in
  apply bind_Ok in H; destruct H as (a & Ha & H).

Lemma fdiv_Ok (x y : Q) : ~ y == 0 -> fdiv x y = Ok (x / y).
Proof.
  intros Hy. unfold fdiv.
  destruct (Qeq_bool y 0) eqn:E; [apply Qeq_bool_iff in E; contradiction | reflexivity].
Qed.

Lemma fdiv_zero (x y : Q) : y == 0 -> fdiv x y = Raise ZeroDivisionError.
Proof.
  intros Hy. unfold fdiv. apply Qeq_bool_iff in Hy. now rewrite Hy.
Qed.

Lemma fdiv_inv (x y q : Q) : fdiv x y = Ok q -> ~ y == 0 /\ q = x / y.
Proof.
  unfold fdiv. destruct (Qeq_bool y 0) eqn:E; [discriminate|].
  intros H; injection H as <-. split; [|reflexivity].
  intros Hy. apply Qeq_bool_iff in Hy. congruence.
Qed.

Lemma Qlt_bool_iff (x y : Q) : Qlt_bool x y = true <-> x < y.
Proof.
  unfold Qlt_bool. rewrite negb_true_iff.
  destruct (Qle_bool y x) eqn:E.
  - apply Qle_bool_iff in E. split; [discriminate | intros H; lra].
  - split; [intros _ | reflexivity].
    apply Qnot_le_lt. intros H. apply Qle_bool_iff in H. congruence.
Qed.

Lemma Qlt_bool_false (x y : Q) : Qlt_bool x y = false <-> y <= x.
Proof.
  unfold Qlt_bool. rewrite negb_false_iff. apply Qle_bool_iff.
Qed.

Lemma index_nil {A : Type} (i : Z) : index (@nil A) i = Raise IndexError.
Proof.
  unfold index. simpl.
  destruct (i <? 0)%Z eqn:E; rewrite ?Z.add_0_r.
  - rewrite E. reflexivity.
  - assert (Hle : (0 <=? i)%Z = true) by (apply Z.leb_le; apply Z.ltb_ge in E; lia).
    rewrite E, Hle. reflexivity.
Qed.

Lemma index_0_cons {A : Type} (a : A) (l : list A) : index (a :: l) 0 = Ok a.
Proof. reflexivity. Qed.

Lemma index_last_snoc {A : Type} (l : list A) (a : A) :
  index (l ++ [a]) (-1) = Ok a.
Proof.
  unfold index. rewrite length_app. simpl length.
  change (-1 <? 0)%Z with true. cbv iota.
  replace (-1 + Z.of_nat (length l + 1))%Z with (Z.of_nat (length l)) by lia.
  assert (H1 : (Z.of_nat (length l) <? 0)%Z = false) by (apply Z.ltb_ge; lia).
  assert (H2 : (Z.of_nat (length l + 1) <=? Z.of_nat (length l))%Z = false)
    by (apply Z.leb_gt; lia).
  rewrite H1, H2. simpl. rewrite Nat2Z.id.
  rewrite nth_error_app2 by lia. rewrite Nat.sub_diag. reflexivity.
Qed.

Lemma index_Ok_nonempty {A : Type} (l : list A) (i : Z) (a : A) :
  index l i = Ok a -> l <> [].
Proof. intros H ->. rewrite index_nil in H. discriminate. Qed.

Lemma fdiv_Raise (x y : Q) (e : exn) :
  fdiv x y = Raise e -> e = ZeroDivisionError.
Proof.
  unfold fdiv. destruct (Qeq_bool y 0); [|discriminate].
  intros H. injection H as <-. reflexivity.
Qed.

Lemma bind_Raise {A B : Type} (m : result A) (k : A -> result B) (e : exn) :
  bind m k = Raise e -> m = Raise e \/ exists a, m = Ok a /\ k a = Raise e.
Proof.
  destruct m as [a|e']; simpl; intros H.
  - right. exists a. split; [reflexivity | exact H].
  - left. injection H as <-. reflexivity.
Qed.

(** ** Trade *)

(** C10 (Trade.pnl): an open trade has pnl 0.0; a closed trade with
    position 1 has [exit_price / price - 1]; any other closed trade (a
    short) has [price / exit_price - 1], which is not the negation of the
    long-side value at the same prices. *)
Theorem pnl_cases :
  (forall tr, Trade.exit_price tr = None -> Trade.pnl tr = Ok 0) /\
  (forall tr xp, Trade.exit_price tr = Some xp -> Trade.position tr = 1%Z ->
     ~ Trade.price tr == 0 -> Trade.pnl tr = Ok (xp / Trade.price tr - 1)) /\
  (forall tr xp, Trade.exit_price tr = Some xp -> Trade.position tr <> 1%Z ->
     ~ xp == 0 -> Trade.pnl tr = Ok (Trade.price tr / xp - 1)) /\
  (exists p xp l s,
     Trade.pnl (Trade.mk 0 p 1 (Some 1%Z) (Some xp)) = Ok l /\
     Trade.pnl (Trade.mk 0 p (-1) (Some 1%Z) (Some xp)) = Ok s /\
     ~ s == - l).
Proof.
  repeat split.
  - intros tr H. unfold Trade.pnl. now rewrite H.
  - intros tr xp H Hpos Hp. unfold Trade.pnl. rewrite H, Hpos. simpl.
    now rewrite fdiv_Ok.
  - intros tr xp H Hpos Hx. unfold Trade.pnl. rewrite H.
    apply Z.eqb_neq in Hpos. rewrite Hpos. now rewrite fdiv_Ok.
  - exists 1, 2, (2 / 1 - 1), (1 / 2 - 1). repeat split. intros H. vm_compute in H. discriminate H.
Qed.

Lemma pnl_cases_witness :
  Trade.pnl (Trade.mk 0 4 1 None None) = Ok 0 /\
  Trade.pnl (Trade.mk 0 4 1 (Some 9%Z) (Some 5)) = Ok (5 / 4 - 1) /\
  Trade.pnl (Trade.mk 0 4 (-1) (Some 9%Z) (Some 5)) = Ok (4 / 5 - 1).
Proof.
  destruct pnl_cases as (Hopen & Hlong & Hshort & _).
  split; [|split].
  - apply Hopen. reflexivity.
  - apply (Hlong (Trade.mk 0 4 1 (Some 9%Z) (Some 5)) 5); [reflexivity | reflexivity |].
    simpl. intros H. discriminate H.
  - apply (Hshort (Trade.mk 0 4 (-1) (Some 9%Z) (Some 5)) 5); [reflexivity | |].
    + simpl. discriminate.
    + intros H. discriminate H.
Defined.

(** ** The trade log *)

Lemma count_open_closed (l : list Trade.t) :
  Forall is_closed l -> count_open l = O.
Proof.
  induction 1 as [|tr l Htr _ IH]; simpl; [reflexivity|].
  unfold is_closed in Htr. now rewrite Htr.
Qed.

Lemma count_open_app (l1 l2 : list Trade.t) :
  count_open (l1 ++ l2) = (count_open l1 + count_open l2)%nat.
Proof.
  induction l1 as [|tr l1 IH]; simpl; [reflexivity|].
  destruct (Trade.is_open tr); simpl; now rewrite IH.
Qed.

Lemma close_last_snoc (old : list Trade.t) (tr : Trade.t) (time : Z) (price : Q) :
  close_last (old ++ [tr]) time price = Ok (old ++ [Trade.close tr time price]).
Proof.
  unfold close_last. rewrite index_last_snoc. simpl.
  now rewrite removelast_last.
Qed.

Lemma log_inv_count (position : Z) (trades : list Trade.t) :
  log_inv position trades ->
  (count_open trades <= 1)%nat /\ Forall is_closed (removelast trades).
Proof.
  intros [[_ ->] | [_ (old & tr & -> & Hold & Hopen & _)]].
  - simpl. split; [lia | constructor].
  - rewrite count_open_app, removelast_last, (count_open_closed old Hold).
    simpl. rewrite Hopen. split; [lia | exact Hold].
Qed.

(** What one pass through the position block does to the log. *)
Lemma transition_spec (position : Z) (trades : list Trade.t)
    (cross_up cross_dn : bool) (time : Z) (close : Q) :
  log_inv position trades ->
  exists position' trades',
    transition position trades cross_up cross_dn time close
      = Ok (position', trades') /\
    log_inv position' trades' /\
    (trades' = trades \/
     exists old, trades' = old ++ [Trade.init time close position'] /\
                 length old = length trades /\ Forall is_closed old).
Proof.
  intros Hinv.
  assert (Hnew : forall old p, (p = 1 \/ p = -1)%Z -> Forall is_closed old ->
            log_inv p (old ++ [Trade.init time close p])).
  { intros old p Hp Hold. right. split; [exact Hp|].
    exists old, (Trade.init time close p). repeat split; assumption. }
  destruct Hinv as [[-> ->] | [Hp (old & tr & -> & Hold & Hopen & Hdir)]].
  - unfold transition. simpl.
    destruct cross_up; [|destruct cross_dn].
    + eexists _, _. split; [reflexivity|]. split; [apply (Hnew []); auto|].
      right. exists []. repeat split; constructor.
    + eexists _, _. split; [reflexivity|]. split; [apply (Hnew []); auto|].
      right. exists []. repeat split; constructor.
    + eexists _, _. split; [reflexivity|]. split; [left; auto | left; reflexivity].
  - assert (Hcl : Forall is_closed (old ++ [Trade.close tr time close])).
    { apply Forall_app. split; [exact Hold | repeat constructor]. }
    assert (Hlen : length (old ++ [Trade.close tr time close]) = length (old ++ [tr])).
    { rewrite !length_app. reflexivity. }
    assert (Hkeep : log_inv position (old ++ [tr])).
    { right. split; [exact Hp|]. exists old, tr. repeat split; assumption. }
    unfold transition. destruct Hp as [-> | ->]; simpl.
    + destruct cross_dn.
      * rewrite close_last_snoc. simpl.
        eexists _, _. split; [reflexivity|]. split; [apply Hnew; auto|].
        right. eexists. repeat split; assumption.
      * eexists _, _. split; [reflexivity|]. split; [exact Hkeep | left; reflexivity].
    + destruct cross_up.
      * rewrite close_last_snoc. simpl.
        eexists _, _. split; [reflexivity|]. split; [apply Hnew; auto|].
        right. eexists. repeat split; assumption.
      * eexists _, _. split; [reflexivity|]. split; [exact Hkeep | left; reflexivity].
Qed.

(** ** One bar *)

Section StrategyFacts.

Variables SHORT_WINDOW LONG_WINDOW : Z.

Local Abbreviation step' := (step SHORT_WINDOW LONG_WINDOW).
Local Abbreviation run_loop' := (run_loop SHORT_WINDOW LONG_WINDOW).
Local Abbreviation run_states' := (run_states SHORT_WINDOW LONG_WINDOW).
Local Abbreviation run_strategy' := (run_strategy SHORT_WINDOW LONG_WINDOW).
Local Abbreviation crossover' := (crossover SHORT_WINDOW LONG_WINDOW).
Local Abbreviation eligible' := (eligible LONG_WINDOW).
Local Abbreviation signal_block' := (signal_block SHORT_WINDOW LONG_WINDOW).

Lemma step_inv (st st' : State) (row : Row) :
  step' st row = Ok st' ->
  signal_block' st row (closes st ++ [Close row]) = Ok (position st', trades st') /\
  ~ last_close st == 0 /\
  closes st' = closes st ++ [Close row] /\
  ret st' = inject_Z (position st') * (Close row / last_close st - 1) /\
  equity st' = equity st * (1 + ret st') /\
  last_close st' = Close row /\
  eq_curve st' = eq_curve st ++ [(Datetime row, equity st')].
Proof.
  unfold step. intros H.
  inv_bind H. destruct a as [p ts]. inv_bind H.
  apply fdiv_inv in Ha0. destruct Ha0 as [Hlc ->].
  injection H as <-. simpl. repeat split; assumption.
Qed.

Lemma step_intro (st : State) (row : Row) (p : Z) (ts : list Trade.t) :
  signal_block' st row (closes st ++ [Close row]) = Ok (p, ts) ->
  ~ last_close st == 0 ->
  exists st', step' st row = Ok st' /\ position st' = p /\ trades st' = ts.
Proof.
  intros Hsig Hlc. unfold step.
  rewrite Hsig. simpl. rewrite (fdiv_Ok _ _ Hlc). simpl.
  eexists. split; [reflexivity|]. split; reflexivity.
Qed.

Lemma crossover_total (position : Z) (trades : list Trade.t)
    (closes : list Q) (time : Z) (close : Q) :
  SHORT_WINDOW <> 0%Z -> LONG_WINDOW <> 0%Z ->
  exists cross_up cross_dn,
    crossover' position trades closes time close
      = transition position trades cross_up cross_dn time close.
Proof.
  intros HS HL.
  assert (HS' : ~ inject_Z SHORT_WINDOW == 0).
  { unfold Qeq. simpl. lia. }
  assert (HL' : ~ inject_Z LONG_WINDOW == 0).
  { unfold Qeq. simpl. lia. }
  unfold crossover, short_ma, long_ma, prev_short_ma, prev_long_ma.
  rewrite !(fdiv_Ok _ _ HS'), !(fdiv_Ok _ _ HL'). simpl.
  eexists _, _. reflexivity.
Qed.

Lemma crossover_inv (position : Z) (trades : list Trade.t)
    (closes : list Q) (time : Z) (close : Q) (r : Z * list Trade.t) :
  crossover' position trades closes time close = Ok r ->
  exists cross_up cross_dn,
    transition position trades cross_up cross_dn time close = Ok r.
Proof.
  unfold crossover. intros H.
  inv_bind H. inv_bind H. inv_bind H. inv_bind H.
  eexists _, _. exact H.
Qed.

(** A bar keeps the log well formed, and appends at most one trade, after
    closing the one that was open. *)
Lemma step_log (st st' : State) (row : Row) :
  log_inv (position st) (trades st) ->
  step' st row = Ok st' ->
  log_inv (position st') (trades st') /\
  (trades st' = trades st \/
   exists old new, trades st' = old ++ [new] /\
                   length old = length (trades st) /\ Forall is_closed old).
Proof.
  intros Hinv H. apply step_inv in H. destruct H as (Hsig & _).
  unfold signal_block in Hsig.
  destruct (eligible' _).
  - apply crossover_inv in Hsig. destruct Hsig as (cu & cd & Htr).
    destruct (transition_spec _ _ cu cd (Datetime row) (Close row) Hinv)
      as (p' & ts' & Heq & Hinv' & Hshape).
    rewrite Htr in Heq. injection Heq as <- <-.
    split; [exact Hinv'|].
    destruct Hshape as [-> | (old & -> & Hlen & Hold)]; [left; reflexivity|].
    right. eexists _, _. repeat split; eassumption.
  - injection Hsig as <- <-. split; [exact Hinv | left; reflexivity].
Qed.

Lemma step_total (st : State) (row : Row) :
  SHORT_WINDOW <> 0%Z -> LONG_WINDOW <> 0%Z ->
  log_inv (position st) (trades st) -> ~ last_close st == 0 ->
  exists st', step' st row = Ok st'.
Proof.
  intros HS HL Hinv Hlc.
  assert (Hsig : exists r, signal_block' st row (closes st ++ [Close row]) = Ok r).
  { unfold signal_block. destruct (eligible' _); [|eexists; reflexivity].
    destruct (crossover_total (position st) (trades st)
                (closes st ++ [Close row]) (Datetime row) (Close row) HS HL)
      as (cu & cd & ->).
    destruct (transition_spec _ _ cu cd (Datetime row) (Close row) Hinv)
      as (p' & ts' & -> & _). eexists; reflexivity. }
  destruct Hsig as [[p ts] Hsig].
  destruct (step_intro st row p ts Hsig Hlc) as (st' & H & _).
  exists st'. exact H.
Qed.

(** ** The loop *)

Lemma run_loop_log (rows : list Row) (st st' : State) :
  log_inv (position st) (trades st) ->
  run_loop' st rows = Ok st' ->
  log_inv (position st') (trades st').
Proof.
  revert st. induction rows as [|row rows IH]; intros st Hinv H; simpl in H.
  - injection H as <-. exact Hinv.
  - inv_bind H. apply (IH a); [|exact H].
    apply (step_log st a row Hinv Ha).
Qed.

Lemma run_loop_closes (rows : list Row) (st st' : State) :
  run_loop' st rows = Ok st' ->
  closes st' = closes st ++ map Close rows.
Proof.
  revert st. induction rows as [|row rows IH]; intros st H; simpl in H.
  - injection H as <-. now rewrite app_nil_r.
  - inv_bind H. rewrite (IH a H).
    apply step_inv in Ha. destruct Ha as (_ & _ & -> & _).
    now rewrite <- app_assoc.
Qed.

Lemma run_loop_total (rows : list Row) (st : State) :
  SHORT_WINDOW <> 0%Z -> LONG_WINDOW <> 0%Z ->
  log_inv (position st) (trades st) -> ~ last_close st == 0 ->
  Forall (fun row => ~ Close row == 0) rows ->
  exists st', run_loop' st rows = Ok st'.
Proof.
  intros HS HL. revert st.
  induction rows as [|row rows IH]; intros st Hinv Hlc Hrows; simpl.
  - eexists; reflexivity.
  - inversion Hrows as [|? ? Hrow Hrows']; subst.
    destruct (step_total st row HS HL Hinv Hlc) as (st1 & Hst1).
    rewrite Hst1. simpl. apply IH; [| |exact Hrows'].
    + apply (step_log st st1 row Hinv Hst1).
    + apply step_inv in Hst1. destruct Hst1 as (_ & _ & _ & _ & _ & -> & _).
      exact Hrow.
Qed.

Lemma init_state_log (first : Row) :
  log_inv (position (init_state first)) (trades (init_state first)).
Proof. left. split; reflexivity. Qed.

(** ** The end of the data *)

Lemma index_last_nonempty {A : Type} (l : list A) :
  l <> [] -> exists a, index l (-1) = Ok a.
Proof.
  intros H. destruct (exists_last H) as (l' & a & ->).
  exists a. apply index_last_snoc.
Qed.

Lemma close_open_trade_spec (position : Z) (trades : list Trade.t)
    (rows : list Row) (lastrow : Row) :
  log_inv position trades ->
  index rows (-1) = Ok lastrow ->
  exists ts,
    close_open_trade trades rows = Ok ts /\
    Forall is_closed ts /\
    (forall old tr, trades = old ++ [tr] -> Trade.is_open tr = true ->
       ts = old ++ [Trade.close tr (Datetime lastrow) (Close lastrow)]) /\
    (Forall is_closed trades -> ts = trades).
Proof.
  intros [[_ ->] | [_ (old & tr & -> & Hold & Hopen & _)]] Hlast.
  - exists []. simpl. repeat split; [constructor|].
    intros old tr H. destruct old; discriminate H.
  - exists (old ++ [Trade.close tr (Datetime lastrow) (Close lastrow)]).
    split; [|split; [|split]].
    + unfold close_open_trade.
      destruct (old ++ [tr]) as [|x l] eqn:E; [destruct old; discriminate E|].
      rewrite <- E, index_last_snoc. simpl. rewrite Hopen, Hlast. simpl.
      apply close_last_snoc.
    + apply Forall_app. split; [exact Hold | repeat constructor].
    + intros old' tr' E _. apply app_inj_tail in E. destruct E as [<- <-].
      reflexivity.
    + intros Hall. apply Forall_app in Hall. destruct Hall as [_ Htr].
      inversion Htr as [|? ? Hc _]; subst. unfold is_closed in Hc. congruence.
Qed.

Lemma run_strategy_inv (rows : list Row) (curve : list (Z * Q))
    (ts : list Trade.t) :
  run_strategy' rows = Ok (curve, ts) ->
  exists first lastrow st,
    index rows 0 = Ok first /\ index rows (-1) = Ok lastrow /\
    run_loop' (init_state first) rows = Ok st /\
    curve = eq_curve st /\
    close_open_trade (trades st) rows = Ok ts.
Proof.
  unfold run_strategy. intros H.
  inv_bind H. inv_bind H. inv_bind H. injection H as <- <-.
  destruct (index_last_nonempty rows (index_Ok_nonempty _ _ _ Ha)) as (lastrow & Hl).
  exists a, lastrow, a0. repeat split; assumption.
Qed.

Lemma run_strategy_total (rows : list Row) :
  rows <> [] -> SHORT_WINDOW <> 0%Z -> LONG_WINDOW <> 0%Z ->
  Forall (fun row => ~ Close row == 0) rows ->
  exists curve ts, run_strategy' rows = Ok (curve, ts).
Proof.
  intros Hne HS HL Hrows.
  destruct (index_last_nonempty rows Hne) as (lastrow & Hl).
  destruct rows as [|first rows]; [contradiction|].
  assert (Hfirst : ~ Close first == 0) by (inversion Hrows; assumption).
  destruct (run_loop_total (first :: rows) (init_state first) HS HL
              (init_state_log first) Hfirst Hrows) as (st & Hst).
  pose proof (run_loop_log _ _ _ (init_state_log first) Hst) as Hinv.
  destruct (close_open_trade_spec _ _ _ _ Hinv Hl) as (ts & Hts & _).
  exists (eq_curve st), ts. unfold run_strategy.
  rewrite index_0_cons. cbn [bind]. rewrite Hst. cbn [bind]. rewrite Hts.
  reflexivity.
Qed.

(** C3 (trade log invariant): after any number of bars the log holds at
    most one trade with no exit set, every trade but the last is closed, and
    a further bar either leaves the log as it is or appends one trade to a
    log whose earlier trades are then all closed. *)
Theorem at_most_one_open_trade (first : Row) (rows : list Row) (k : nat)
    (st : State) :
  run_loop' (init_state first) (firstn k rows) = Ok st ->
  (count_open (trades st) <= 1)%nat /\
  Forall is_closed (removelast (trades st)) /\
  forall row st', step' st row = Ok st' ->
    (count_open (trades st') <= 1)%nat /\
    (trades st' = trades st \/
     exists old new, trades st' = old ++ [new] /\
                     length old = length (trades st) /\ Forall is_closed old).
Proof.
  intros H.
  pose proof (run_loop_log _ _ _ (init_state_log first) H) as Hinv.
  destruct (log_inv_count _ _ Hinv) as [Hc Hr].
  split; [exact Hc|]. split; [exact Hr|].
  intros row st' Hstep.
  destruct (step_log st st' row Hinv Hstep) as [Hinv' Hshape].
  split; [apply (log_inv_count _ _ Hinv') | exact Hshape].
Qed.

(** C4 (end of data): whenever [run_strategy] returns, every trade of the
    returned log is closed; a trade left open by the loop is closed with the
    timestamp and the close of the last bar, and a log with no open trade is
    returned as it is.  It does return on a non-empty sequence of bars with
    non-zero closes and non-zero windows. *)
Theorem open_trade_closed_at_end (rows : list Row) :
  (forall curve ts, run_strategy' rows = Ok (curve, ts) ->
     exists first lastrow st,
       index rows 0 = Ok first /\ index rows (-1) = Ok lastrow /\
       run_loop' (init_state first) rows = Ok st /\
       Forall is_closed ts /\
       (forall old tr, trades st = old ++ [tr] -> Trade.is_open tr = true ->
          exists tr', ts = old ++ [tr'] /\
            tr' = Trade.close tr (Datetime lastrow) (Close lastrow) /\
            Trade.exit_time tr' = Some (Datetime lastrow) /\
            Trade.exit_price tr' = Some (Close lastrow)) /\
       (Forall is_closed (trades st) -> ts = trades st)) /\
  (rows <> [] -> SHORT_WINDOW <> 0%Z -> LONG_WINDOW <> 0%Z ->
   Forall (fun row => ~ Close row == 0) rows ->
   exists curve ts, run_strategy' rows = Ok (curve, ts)).
Proof.
  split; [|apply run_strategy_total].
  intros curve ts H.
  destruct (run_strategy_inv _ _ _ H) as (first & lastrow & st & H0 & Hl & Hst & _ & Hts).
  pose proof (run_loop_log _ _ _ (init_state_log first) Hst) as Hinv.
  destruct (close_open_trade_spec _ _ _ _ Hinv Hl) as (ts' & Hts' & Hcl & Hopen & Hnone).
  rewrite Hts in Hts'. injection Hts' as <-.
  exists first, lastrow, st. repeat split; try assumption.
  intros old tr E Ho. eexists. split; [apply (Hopen old tr E Ho)|].
  repeat split.
Qed.

(** ** The equity curve *)

Lemma compound_positive (rets : list Q) (e : Q) :
  0 < e -> Forall (fun r => -1 < r) rets ->
  Forall (fun x => 0 < x) (compound e rets).
Proof.
  revert e. induction rets as [|r rets IH]; intros e He Hr; simpl.
  - constructor.
  - inversion Hr as [|? ? Hr1 Hr2]; subst.
    assert (H : 0 < e * (1 + r)) by (apply Qmult_lt_0_compat; lra).
    constructor; [exact H | apply IH; assumption].
Qed.

Lemma run_states_loop (rows : list Row) (st : State) (sts : list State) :
  run_states' st rows = Ok sts ->
  exists st',
    run_loop' st rows = Ok st' /\
    map snd (eq_curve st') = map snd (eq_curve st) ++ map equity sts /\
    map fst (eq_curve st') = map fst (eq_curve st) ++ map Datetime rows /\
    map equity sts = compound (equity st) (map ret sts).
Proof.
  revert st sts. induction rows as [|row rows IH]; intros st sts H; simpl in H.
  - injection H as <-. exists st. simpl. rewrite !app_nil_r. repeat split.
  - inv_bind H. inv_bind H. injection H as <-.
    destruct (IH _ _ Ha0) as (st' & Hrun & Hsnd & Hfst & Hcomp).
    destruct (step_inv _ _ _ Ha) as (_ & _ & _ & _ & Heq & _ & Hcurve).
    exists st'. simpl. rewrite Ha. cbn [bind]. split; [exact Hrun|].
    rewrite Hsnd, Hfst, Hcurve, !map_app, <- !app_assoc. simpl.
    repeat split. rewrite Hcomp, Heq. reflexivity.
Qed.

Lemma run_loop_states (rows : list Row) (st st' : State) :
  run_loop' st rows = Ok st' -> exists sts, run_states' st rows = Ok sts.
Proof.
  revert st. induction rows as [|row rows IH]; intros st H; simpl in H |- *.
  - eexists; reflexivity.
  - inv_bind H. rewrite Ha. cbn [bind].
    destruct (IH _ H) as (sts & ->). eexists; reflexivity.
Qed.

(** C8 as amended (compounding): the equity values of the curve that
    [run_strategy] returns are the products of the per-bar multipliers
    [1 + ret] accumulated from 1, [ret] being the return the loop computes
    at each bar; none of them is negative when every per-bar return is
    above -100%. *)
Theorem equity_is_compounded_product (rows : list Row)
    (curve : list (Z * Q)) (ts : list Trade.t) :
  run_strategy' rows = Ok (curve, ts) ->
  exists first sts,
    index rows 0 = Ok first /\
    run_states' (init_state first) rows = Ok sts /\
    map fst curve = map Datetime rows /\
    map snd curve = map equity sts /\
    map snd curve = compound 1 (map ret sts) /\
    (Forall (fun r => -1 < r) (map ret sts) ->
     Forall (fun e => ~ e < 0) (map snd curve)).
Proof.
  intros H.
  destruct (run_strategy_inv _ _ _ H)
    as (first & _ & st & H0 & _ & Hrun & -> & _).
  destruct (run_loop_states _ _ _ Hrun) as (sts & Hsts).
  destruct (run_states_loop _ _ _ Hsts) as (st' & Hrun' & Hsnd & Hfst & Hcomp).
  rewrite Hrun in Hrun'. injection Hrun' as <-.
  simpl in Hsnd, Hfst, Hcomp.
  exists first, sts. rewrite Hsnd, <- Hcomp.
  repeat split; try assumption.
  intros Hr. rewrite Hcomp.
  apply (Forall_impl _ (P := fun e => 0 < e)); [intros e He; lra|].
  apply compound_positive; [reflexivity | exact Hr].
Qed.

End StrategyFacts.

(** ** Short histories, on binary64 floats *)

(** The product [0 * x] is a zero when [x] is finite, and NaN otherwise. *)
Lemma float_zero_mul (x : float) :
  (0 * x = 0 \/ 0 * x = neg_zero \/ 0 * x = nan)%float /\
  (is_finite x = true -> 0 * x = 0 \/ 0 * x = neg_zero)%float.
Proof.
  unfold is_finite, is_nan, is_infinity.
  rewrite !eqb_spec, abs_spec.
  rewrite <- (SF2Prim_Prim2SF (0 * x)), mul_spec.
  change (Prim2SF 0) with (S754_zero false).
  destruct (Prim2SF x) as [s | s | | s m e].
  - destruct s; split; auto.
  - split; [right; right; reflexivity|].
    destruct s; intros H; vm_compute in H; discriminate H.
  - split; [right; right; reflexivity|].
    intros H; vm_compute in H; discriminate H.
  - destruct s; split; auto.
Qed.

(** NaN is absorbing. *)
Lemma float_nan_mul (y : float) : (nan * y = nan)%float.
Proof.
  rewrite <- (SF2Prim_Prim2SF (nan * y)), mul_spec.
  change (Prim2SF nan) with S754_nan.
  destruct (Prim2SF y); reflexivity.
Qed.

(** The equity after a bar met in a flat position: [x] is the bar's price
    move [close / last_close - 1]. *)
Lemma flat_equity (e x : float) :
  (e = 1 \/ e = nan ->
   (e * (1 + 0 * x) = 1 \/ e * (1 + 0 * x) = nan) /\
   (e = 1 -> is_finite x = true -> e * (1 + 0 * x) = 1))%float.
Proof.
  intros He. destruct (float_zero_mul x) as [Hc Hf]. split.
  - destruct He as [-> | ->]; [|right; apply float_nan_mul].
    destruct Hc as [-> | [-> | ->]]; [left | left | right]; reflexivity.
  - intros -> Hx. destruct (Hf Hx) as [-> | ->]; reflexivity.
Qed.

Lemma float_nan_not_one : nan <> 1%float.
Proof. intros H. apply (f_equal is_nan) in H. vm_compute in H. discriminate H. Qed.

Section B64Facts.

Variable fsum : list float -> float.
Variables SHORT_WINDOW LONG_WINDOW : Z.

Local Abbreviation step' := (B64.step fsum SHORT_WINDOW LONG_WINDOW).
Local Abbreviation run_loop' := (B64.run_loop fsum SHORT_WINDOW LONG_WINDOW).
Local Abbreviation run_strategy' := (B64.run_strategy fsum SHORT_WINDOW LONG_WINDOW).
Local Abbreviation crossover' := (B64.crossover fsum SHORT_WINDOW LONG_WINDOW).
Local Abbreviation signal_block' := (B64.signal_block fsum SHORT_WINDOW LONG_WINDOW).

Lemma b64_signal_block_guard (st : B64.State) (row : B64.Row) :
  signal_block' st row (B64.closes st ++ [B64.Close row])
  = if (LONG_WINDOW + 1 <=? Z.of_nat (S (length (B64.closes st))))%Z
    then crossover' (B64.position st) (B64.trades st)
           (B64.closes st ++ [B64.Close row]) (B64.Datetime row) (B64.Close row)
    else Ok (B64.position st, B64.trades st).
Proof.
  unfold B64.signal_block, B64.eligible. rewrite length_app. simpl length.
  replace (length (B64.closes st) + 1)%nat with (S (length (B64.closes st)))
    by lia.
  destruct (Z.gtb_spec (Z.of_nat (S (length (B64.closes st)))) LONG_WINDOW);
    destruct (Z.leb_spec (LONG_WINDOW + 1)
                (Z.of_nat (S (length (B64.closes st)))));
    try reflexivity; lia.
Qed.

Lemma b64_step_closes (st st' : B64.State) (row : B64.Row) :
  step' st row = Ok st' ->
  B64.closes st' = B64.closes st ++ [B64.Close row].
Proof.
  unfold B64.step. intros H.
  apply bind_Ok in H. destruct H as ([p ts] & _ & H).
  apply bind_Ok in H. destruct H as (q & _ & H).
  apply bind_Ok in H. destruct H as (f & _ & H).
  injection H as <-. reflexivity.
Qed.

Lemma b64_run_loop_closes (rows : list B64.Row) (st st' : B64.State) :
  run_loop' st rows = Ok st' ->
  B64.closes st' = B64.closes st ++ map B64.Close rows.
Proof.
  revert st. induction rows as [|row rows IH]; intros st H; simpl in H.
  - injection H as <-. rewrite app_nil_r. reflexivity.
  - apply bind_Ok in H. destruct H as (st1 & H1 & H).
    rewrite (IH _ H), (b64_step_closes _ _ _ H1), <- app_assoc. reflexivity.
Qed.

(** A bar of a short history met in a flat state. *)
Lemma b64_step_flat (st : B64.State) (row : B64.Row) :
  (Z.of_nat (S (length (B64.closes st))) <= LONG_WINDOW)%Z ->
  B64.position st = 0%Z -> B64.trades st = [] ->
  step' st row
  = if (B64.last_close st =? 0)%float then Raise ZeroDivisionError
    else
      let ret := (0 * (B64.Close row / B64.last_close st - 1))%float in
      let equity := (B64.equity st * (1 + ret))%float in
      Ok (B64.mkState (B64.closes st ++ [B64.Close row]) 0 equity
            (B64.Close row) []
            (B64.eq_curve st ++ [(B64.Datetime row, equity)]) ret).
Proof.
  intros Hlen Hp Ht. unfold B64.step. rewrite b64_signal_block_guard.
  destruct (Z.leb_spec (LONG_WINDOW + 1)
              (Z.of_nat (S (length (B64.closes st))))); [lia|].
  cbn [bind]. rewrite Hp, Ht. unfold B64.fdiv.
  destruct (B64.last_close st =? 0)%float; reflexivity.
Qed.

Lemma b64_run_loop_flat (rows : list B64.Row) (st st' : B64.State) :
  (Z.of_nat (length (B64.closes st) + length rows) <= LONG_WINDOW)%Z ->
  B64.position st = 0%Z -> B64.trades st = [] ->
  B64.equity st = 1%float \/ B64.equity st = nan ->
  Forall (fun p => snd p = 1%float \/ snd p = nan) (B64.eq_curve st) ->
  run_loop' st rows = Ok st' ->
  B64.position st' = 0%Z /\ B64.trades st' = [] /\
  Forall (fun p => snd p = 1%float \/ snd p = nan) (B64.eq_curve st') /\
  map fst (B64.eq_curve st') = map fst (B64.eq_curve st) ++ map B64.Datetime rows /\
  (B64.equity st = 1%float ->
   Forall (fun p => snd p = 1%float) (B64.eq_curve st) ->
   B64.finite_moves (B64.last_close st) rows = true ->
   Forall (fun p => snd p = 1%float) (B64.eq_curve st')).
Proof.
  revert st.
  induction rows as [|row rows IH]; intros st Hlen Hp Ht He Hc Hrun;
    simpl in Hrun.
  - injection Hrun as <-. simpl. rewrite app_nil_r. repeat split; auto.
  - apply bind_Ok in Hrun. destruct Hrun as (st1 & Hstep & Hrun).
    simpl length in Hlen.
    rewrite b64_step_flat in Hstep by (assumption || lia).
    destruct (B64.last_close st =? 0)%float; [discriminate Hstep|].
    cbv zeta in Hstep. injection Hstep as <-.
    destruct (flat_equity (B64.equity st)
                (B64.Close row / B64.last_close st - 1) He) as [He1 Hfin].
    specialize (fun H1 H2 H3 H4 H5 => IH _ H1 H2 H3 H4 H5 Hrun).
    cbn [B64.closes B64.position B64.trades B64.equity B64.eq_curve
         B64.last_close] in IH.
    destruct IH as (Hp' & Ht' & Hc' & Hfst & Hone).
    + rewrite length_app. simpl length. lia.
    + reflexivity.
    + reflexivity.
    + exact He1.
    + apply Forall_app. split; [exact Hc|]. constructor; [exact He1|constructor].
    + cbn [B64.eq_curve B64.equity B64.last_close] in Hfst, Hone.
      repeat split; try assumption.
      * rewrite Hfst, map_app, <- app_assoc. reflexivity.
      * intros He0 Hc0 Hmoves. simpl in Hmoves.
        apply andb_prop in Hmoves. destruct Hmoves as [Hm1 Hm2].
        specialize (Hfin He0 Hm1).
        apply Hone; [exact Hfin| |exact Hm2].
        apply Forall_app. split; [exact Hc0|].
        constructor; [exact Hfin|constructor].
Qed.

Lemma b64_run_loop_flat_total (rows : list B64.Row) (st : B64.State) :
  (Z.of_nat (length (B64.closes st) + length rows) <= LONG_WINDOW)%Z ->
  B64.position st = 0%Z -> B64.trades st = [] ->
  (B64.last_close st =? 0)%float = false ->
  Forall (fun row => (B64.Close row =? 0)%float = false) rows ->
  exists st', run_loop' st rows = Ok st'.
Proof.
  revert st.
  induction rows as [|row rows IH]; intros st Hlen Hp Ht Hlc Hrows; simpl.
  - eexists; reflexivity.
  - simpl length in Hlen.
    rewrite b64_step_flat by (assumption || lia). rewrite Hlc.
    cbv zeta. cbn [bind].
    apply IH; cbn [B64.closes B64.position B64.trades B64.last_close].
    + rewrite length_app. simpl length. lia.
    + reflexivity.
    + reflexivity.
    + exact (Forall_inv Hrows).
    + exact (Forall_inv_tail Hrows).
Qed.

End B64Facts.

Lemma b64_run_strategy_inv (fsum : list float -> float) (SW LW : Z)
    (rows : list B64.Row) (curve : list (Z * float)) (ts : list B64.Trade.t) :
  B64.run_strategy fsum SW LW rows = Ok (curve, ts) ->
  exists first st,
    index rows 0 = Ok first /\
    B64.run_loop fsum SW LW (B64.init_state first) rows = Ok st /\
    curve = B64.eq_curve st /\
    B64.close_open_trade (B64.trades st) rows = Ok ts.
Proof.
  unfold B64.run_strategy. intros H.
  apply bind_Ok in H. destruct H as (first & H0 & H).
  apply bind_Ok in H. destruct H as (st & Hrun & H).
  apply bind_Ok in H. destruct H as (ts' & Hts & H).
  injection H as <- <-. exists first, st. repeat split; assumption.
Qed.

(** C2 as amended (short histories): on fewer than [LONG_WINDOW + 1] bars,
    whatever [run_strategy] returns has no trade and an equity curve with
    one point per bar; each value is 1.0 or NaN, and all are 1.0 when every
    price move [close / last_close - 1] is finite; the position is flat and
    the log empty after every bar; the run returns when the sequence is
    non-empty and no close is zero.  The position block of the bar that
    makes the history [n] closes long is the crossover evaluation when
    [n >= LONG_WINDOW + 1] and is skipped before: with the default windows,
    fifty bars closing at 10 leave the log empty, and a fifty-first bar
    closing at 1 enters a short at its close. *)
Theorem short_history_has_no_trade :
  (forall (fsum : list float -> float) (SHORT_WINDOW LONG_WINDOW : Z)
          (rows : list B64.Row),
     (Z.of_nat (length rows) < LONG_WINDOW + 1)%Z ->
     (forall curve ts,
        B64.run_strategy fsum SHORT_WINDOW LONG_WINDOW rows = Ok (curve, ts) ->
        ts = [] /\
        map fst curve = map B64.Datetime rows /\
        Forall (fun p => snd p = 1%float \/ snd p = nan) curve /\
        (forall first,
           index rows 0 = Ok first ->
           B64.finite_moves (B64.Close first) rows = true ->
           Forall (fun p => snd p = 1%float) curve) /\
        (forall first n st,
           index rows 0 = Ok first ->
           B64.run_loop fsum SHORT_WINDOW LONG_WINDOW (B64.init_state first)
             (firstn n rows) = Ok st ->
           B64.position st = 0%Z /\ B64.trades st = [])) /\
     (rows <> [] ->
      Forall (fun row => (B64.Close row =? 0)%float = false) rows ->
      exists curve,
        B64.run_strategy fsum SHORT_WINDOW LONG_WINDOW rows = Ok (curve, []))) /\
  (forall (fsum : list float -> float) (SHORT_WINDOW LONG_WINDOW : Z)
          (first : B64.Row) (rows : list B64.Row) (st : B64.State)
          (row : B64.Row),
     B64.run_loop fsum SHORT_WINDOW LONG_WINDOW (B64.init_state first) rows
     = Ok st ->
     B64.signal_block fsum SHORT_WINDOW LONG_WINDOW st row
       (B64.closes st ++ [B64.Close row])
     = if (LONG_WINDOW + 1 <=? Z.of_nat (S (length rows)))%Z
       then B64.crossover fsum SHORT_WINDOW LONG_WINDOW
              (B64.position st) (B64.trades st)
              (B64.closes st ++ [B64.Close row])
              (B64.Datetime row) (B64.Close row)
       else Ok (B64.position st, B64.trades st)) /\
  (forall fsum : list float -> float,
     fsum = B64.sum_left \/ fsum = B64.sum_compensated ->
     exists curve curve',
       B64.run_strategy fsum 20 50 (B64.flat_rows 50 10) = Ok (curve, []) /\
       B64.run_strategy fsum 20 50 (B64.flat_rows 50 10 ++ [B64.bar 50 1])
       = Ok (curve', [B64.Trade.mk 50 1 (-1) (Some 50%Z) (Some 1%float)])).
Proof.
  split; [|split].
  - intros fsum SW LW rows Hlen.
    assert (Hflat : forall first n st,
              B64.run_loop fsum SW LW (B64.init_state first) (firstn n rows)
              = Ok st ->
              B64.position st = 0%Z /\ B64.trades st = [] /\
              Forall (fun p => snd p = 1%float \/ snd p = nan) (B64.eq_curve st) /\
              map fst (B64.eq_curve st) = map B64.Datetime (firstn n rows) /\
              (B64.finite_moves (B64.Close first) (firstn n rows) = true ->
               Forall (fun p => snd p = 1%float) (B64.eq_curve st))).
    { intros first n st Hrun.
      destruct (b64_run_loop_flat fsum SW LW (firstn n rows)
                  (B64.init_state first) st)
        as (Hp & Ht & Hc & Hfst & Hone);
        try reflexivity; try assumption.
      - change (length (B64.closes (B64.init_state first))) with 0%nat.
        rewrite length_firstn. lia.
      - left. reflexivity.
      - constructor.
      - repeat split; try assumption.
        intros Hm. apply Hone; [reflexivity | constructor | exact Hm]. }
    split.
    + intros curve ts H.
      destruct (b64_run_strategy_inv _ _ _ _ _ _ H)
        as (first & st & H0 & Hrun & -> & Hts).
      rewrite <- (firstn_all rows) in Hrun.
      destruct (Hflat first _ st Hrun) as (Hp & Ht & Hc & Hfst & Hone).
      rewrite firstn_all in Hfst, Hone.
      rewrite Ht in Hts. injection Hts as <-.
      split; [reflexivity|]. split; [exact Hfst|]. split; [exact Hc|]. split.
      * intros first' H0' Hm. rewrite H0 in H0'. injection H0' as <-.
        apply Hone. exact Hm.
      * intros first' n st' _ Hrun'.
        destruct (Hflat first' n st' Hrun') as (Hp' & Ht' & _).
        split; assumption.
    + intros Hne Hrows.
      destruct rows as [|first rows]; [contradiction|].
      destruct (b64_run_loop_flat_total fsum SW LW (first :: rows)
                  (B64.init_state first)) as (st & Hrun);
        try reflexivity; try assumption.
      * simpl B64.closes. simpl length in *. lia.
      * exact (Forall_inv Hrows).
      * assert (Hrun' := Hrun). rewrite <- (firstn_all (first :: rows)) in Hrun'.
        destruct (Hflat first _ st Hrun') as (_ & Ht & _).
        exists (B64.eq_curve st). unfold B64.run_strategy.
        rewrite index_0_cons. cbn [bind]. rewrite Hrun. cbn [bind].
        rewrite Ht. reflexivity.
  - intros fsum SW LW first rows st row Hrun.
    rewrite b64_signal_block_guard.
    rewrite (b64_run_loop_closes _ _ _ _ _ _ Hrun).
    simpl B64.closes. simpl app. rewrite length_map. reflexivity.
  - intros fsum [-> | ->]; eexists _, _; split; vm_compute; reflexivity.
Qed.

Lemma short_history_has_no_trade_witness :
  exists curve,
    B64.run_strategy B64.sum_left 20 50 (B64.flat_rows 3 10) = Ok (curve, []) /\
    Forall (fun p => snd p = 1%float) curve.
Proof.
  destruct (proj1 short_history_has_no_trade B64.sum_left 20%Z 50%Z
              (B64.flat_rows 3 10)) as [Hinv Htot].
  - simpl. lia.
  - destruct Htot as (curve & Hrun).
    + simpl. discriminate.
    + repeat constructor.
    + exists curve. split; [exact Hrun|].
      destruct (Hinv curve [] Hrun) as (_ & _ & _ & Hone & _).
      apply (Hone (B64.bar 0 10)); reflexivity.
Defined.

(** C2 as stated fails: on the three finite closes [2^-700, 2^700, 2^700]
    the price move of the second bar overflows to infinity, the return of
    the flat position is [0 * inf = nan], and the curve is [1.0, nan, nan]
    although no trade is made. *)
Lemma short_history_curve_not_flat :
  let rows :=
    [B64.bar 0 0x1p-700; B64.bar 1 0x1p+700; B64.bar 2 0x1p+700]%float in
  (Z.of_nat (length rows) < 50 + 1)%Z /\
  forallb (fun row => is_finite (B64.Close row)) rows = true /\
  exists curve,
    B64.run_strategy B64.sum_left 20 50 rows = Ok (curve, []) /\
    B64.run_strategy B64.sum_compensated 20 50 rows = Ok (curve, []) /\
    map snd curve = [1; nan; nan]%float /\
    ~ Forall (fun p => snd p = 1%float) curve.
Proof.
  intros rows. split; [simpl; lia|]. split; [reflexivity|].
  eexists. split; [vm_compute; reflexivity|].
  split; [vm_compute; reflexivity|]. split; [reflexivity|].
  intros H. apply Forall_inv_tail in H. apply Forall_inv in H.
  exact (float_nan_not_one H).
Qed.


(** ** Underflow of the equity, on binary64 floats *)

(** With the windows 3 and 1 on [B64.squeeze_rows 90], a short is entered at
    the fourth bar and kept while the closes grow by the factor [2 - 2^-13]
    per bar: every return is above -100% and no equity value is negative,
    yet the equity underflows, and the last five values are exactly 0. *)
Lemma b64_equity_underflows (fsum : list float -> float) :
  fsum = B64.sum_left \/ fsum = B64.sum_compensated ->
  exists sts,
    B64.run_states fsum 3 1 (B64.init_state (B64.bar 0 1))
      (B64.squeeze_rows 90) = Ok sts /\
    forallb (fun row => is_finite (B64.Close row)) (B64.squeeze_rows 90)
    = true /\
    forallb (fun st => (-1 <? B64.ret st)%float) sts = true /\
    forallb (fun st => negb (B64.equity st <? 0)%float) sts = true /\
    map B64.equity (skipn 85 sts) = [0; 0; 0; 0; 0]%float.
Proof.
  intros [-> | ->]; eexists; (split; [vm_compute; reflexivity|]);
    repeat split; vm_compute; reflexivity.
Qed.

(** ** The return of a signal bar *)

(** The return of a bar is computed from the position that the bar's own
    crossover has just set. *)
Lemma step_return (SHORT_WINDOW LONG_WINDOW : Z) (st st' : State) (row : Row) :
  step SHORT_WINDOW LONG_WINDOW st row = Ok st' ->
  ret st' = inject_Z (position st') * (Close row / last_close st - 1) /\
  equity st' = equity st * (1 + ret st').
Proof.
  intros H. apply step_inv in H. tauto.
Qed.

(** C1 (position used for the return), evaluated with the default windows
    on fifty bars closing at 10 followed by a bar closing at 1: the position
    entering bar 51 is flat, so the claimed return is 0 and the claimed
    equity 1; the code enters a short at that bar's close and applies the
    bar's return to it, recording a return of 9/10 and an equity of 19/10. *)
Theorem return_uses_position_after_transition :
  exists st st',
    run_loop 20 50 (init_state (bar 0 10)) (firstn 50 fall_rise_rows) = Ok st /\
    step 20 50 st (bar 50 1) = Ok st' /\
    position st = 0%Z /\ equity st == 1 /\
    inject_Z (position st) * (Close (bar 50 1) / last_close st - 1) == 0 /\
    position st' = (-1)%Z /\
    map Trade.price (trades st') = [Close (bar 50 1)] /\
    ret st' == 9 # 10 /\
    equity st' == 19 # 10.
Proof.
  eexists. eexists.
  split; [vm_compute; reflexivity|].
  split; [vm_compute; reflexivity|].
  repeat split.
Qed.

(** ** Concrete runs *)

Lemma at_most_one_open_trade_witness :
  exists st,
    run_loop 1 3 (init_state (bar 1 10)) (firstn 4 spike_rows) = Ok st /\
    (count_open (trades st) <= 1)%nat /\
    Forall is_closed (removelast (trades st)).
Proof.
  eexists. split; [vm_compute; reflexivity|].
  split;
    apply (at_most_one_open_trade 1 3 (bar 1 10) spike_rows 4);
    vm_compute; reflexivity.
Defined.

Lemma open_trade_closed_at_end_witness :
  exists curve ts,
    run_strategy 1 3 spike_rows = Ok (curve, ts) /\ Forall is_closed ts.
Proof.
  destruct (open_trade_closed_at_end 1 3 spike_rows) as [Hinv Htot].
  destruct Htot as (curve & ts & Hrun).
  - simpl. discriminate.
  - lia.
  - lia.
  - simpl. repeat constructor; simpl; intros H; discriminate H.
  - exists curve, ts. split; [exact Hrun|].
    destruct (Hinv curve ts Hrun) as (first & lastrow & st & _ & _ & _ & Hcl & _).
    exact Hcl.
Defined.

Lemma equity_is_compounded_product_witness :
  exists sts,
    run_states 1 3 (init_state (bar 1 10)) spike_rows = Ok sts /\
    map Qred (compound 1 (map ret sts))
    = [1; 1; 1; 19 # 10; -19 # 10].
Proof.
  destruct (equity_is_compounded_product 1 3 spike_rows
              [(1%Z, 1 * (1 + 0 * (10 / 10 - 1)));
               (2%Z, 1 * (1 + 0 * (10 / 10 - 1)) * (1 + 0 * (10 / 10 - 1)));
               (3%Z, 1 * (1 + 0 * (10 / 10 - 1)) * (1 + 0 * (10 / 10 - 1))
                       * (1 + 0 * (10 / 10 - 1)));
               (4%Z, 1 * (1 + 0 * (10 / 10 - 1)) * (1 + 0 * (10 / 10 - 1))
                       * (1 + 0 * (10 / 10 - 1))
                       * (1 + inject_Z (-1) * (1 / 10 - 1)));
               (5%Z, 1 * (1 + 0 * (10 / 10 - 1)) * (1 + 0 * (10 / 10 - 1))
                       * (1 + 0 * (10 / 10 - 1))
                       * (1 + inject_Z (-1) * (1 / 10 - 1))
                       * (1 + inject_Z (-1) * (3 / 1 - 1)))]
              [Trade.mk 4 1 (-1) (Some 5%Z) (Some 3)])
    as (first & sts & H0 & Hsts & _ & _ & Hcomp & _).
  - vm_compute. reflexivity.
  - injection H0 as <-. exists sts. split; [exact Hsts|].
    rewrite <- Hcomp. vm_compute. reflexivity.
Defined.

Lemma forallb_not_total_loss (l : list Q) :
  forallb (fun r => negb (Qeq_bool r (-1))) l = true ->
  Forall (fun r => ~ r == -1) l.
Proof.
  intros H. apply Forall_forall. intros r Hin.
  apply (proj1 (forallb_forall _ l) H) in Hin.
  apply negb_true_iff in Hin. intros C. apply Qeq_bool_iff in C. congruence.
Qed.

Lemma Forall_positive_forallb (l : list Q) :
  Forall (fun e => 0 < e) l -> forallb (Qlt_bool 0) l = true.
Proof.
  intros H. apply forallb_forall. intros e Hin.
  apply Qlt_bool_iff. exact (proj1 (Forall_forall _ l) H e Hin).
Qed.

(** C8 as stated fails: with the default windows on [fall_rise_rows] no
    per-bar return is -100% (the last two are 9/10 and -2, the others 0),
    yet the last equity value is -19/10. *)
Lemma equity_not_always_positive :
  exists curve ts sts,
    run_strategy 20 50 fall_rise_rows = Ok (curve, ts) /\
    run_states 20 50 (init_state (bar 0 10)) fall_rise_rows = Ok sts /\
    map snd curve = map equity sts /\
    Forall (fun r => ~ r == -1) (map ret sts) /\
    ~ Forall (fun e => 0 < e) (map snd curve).
Proof.
  eexists _, _, _.
  split; [vm_compute; reflexivity|].
  split; [vm_compute; reflexivity|].
  split; [vm_compute; reflexivity|].
  split.
  - apply forallb_not_total_loss. vm_compute. reflexivity.
  - intros H. apply Forall_positive_forallb in H.
    vm_compute in H. discriminate H.
Qed.

(** The example of a single upward crossover: fifty bars closing at 10
    and then 11 and 12 open one long trade at bar 51, closed at the last
    bar with pnl [12 / 11 - 1]. *)
Example single_long_trade :
  exists curve tr,
    run_strategy 20 50
      (map (fun i => bar (Z.of_nat i) 10) (seq 0 50) ++ [bar 50 11; bar 51 12])
    = Ok (curve, [tr]) /\
    tr = Trade.mk 50 11 1 (Some 51%Z) (Some 12) /\
    Trade.pnl tr = Ok (12 / 11 - 1).
Proof.
  eexists _, _. split; [vm_compute; reflexivity|]. split; reflexivity.
Qed.

(** ** trade_frequency *)

Lemma index_last {A : Type} (l : list A) (d : A) :
  l <> [] -> index l (-1) = Ok (last l d).
Proof.
  intros H. destruct (exists_last H) as (l' & a & ->).
  rewrite index_last_snoc, last_last. reflexivity.
Qed.

Lemma inject_Z_zero (z : Z) : inject_Z z == 0 <-> z = 0%Z.
Proof. unfold Qeq. simpl. lia. Qed.

(** C9 (trade frequency): 0.0 on an empty log; otherwise, with the last
    trade closed, the number of trades over the elapsed months, the whole
    days from the first entry to the last exit divided by 30, and the plain
    number of trades when the elapsed months are 0. *)
Theorem trade_frequency_spec :
  trade_frequency [] = Ok 0 /\
  forall (first : Trade.t) (rest : list Trade.t) (xt : Z),
    Trade.exit_time (last (first :: rest) first) = Some xt ->
    let trades := first :: rest in
    let months := inject_Z (timedelta_days (xt - Trade.time first)) / 30 in
    let n := inject_Z (Z.of_nat (length trades)) in
    (months == 0 -> trade_frequency trades = Ok n) /\
    (~ months == 0 -> trade_frequency trades = Ok (n / months)).
Proof.
  split; [reflexivity|].
  intros first rest xt Hx trades months n.
  assert (Hfreq : trade_frequency trades =
                  if negb (Qeq_bool months 0) then fdiv n months else Ok n).
  { unfold trade_frequency. subst trades.
    rewrite (index_last (first :: rest) first) by discriminate.
    cbn [bind]. rewrite index_0_cons. cbn [bind]. rewrite Hx.
    rewrite fdiv_Ok by (intros C; discriminate C). reflexivity. }
  rewrite Hfreq. split; intros Hm.
  - apply Qeq_bool_iff in Hm. rewrite Hm. reflexivity.
  - destruct (Qeq_bool months 0) eqn:E.
    + apply Qeq_bool_iff in E. contradiction.
    + simpl. apply fdiv_Ok. exact Hm.
Qed.

Lemma trade_frequency_spec_witness :
  trade_frequency
    [Trade.mk 0 10 1 (Some 86400%Z) (Some 11);
     Trade.mk 86400 11 (-1) (Some 5184000%Z) (Some 9)]
  = Ok (inject_Z 2 / (inject_Z 60 / 30)).
Proof.
  apply (proj2 trade_frequency_spec
           (Trade.mk 0 10 1 (Some 86400%Z) (Some 11))
           [Trade.mk 86400 11 (-1) (Some 5184000%Z) (Some 9)]
           5184000%Z).
  - reflexivity.
  - intros H. vm_compute in H. discriminate H.
Defined.

(** ** calc_metrics *)

Section MetricsFacts.

Variable fpow : number -> Q -> result number.
Variable fsqrt : Q -> Q.

Lemma calc_metrics_inv (eq_curve : list (Z * Q)) (a s m : number) (d : Q) :
  calc_metrics fpow fsqrt eq_curve = Ok (a, s, d, m) ->
  annual_return fpow eq_curve = Ok a /\
  sharpe fpow fsqrt eq_curve = Ok s /\
  max_drawdown eq_curve = Ok d.
Proof.
  unfold calc_metrics. intros H.
  inv_bind H. inv_bind H. inv_bind H. inv_bind H.
  injection H as <- <- <- <-. repeat split; assumption.
Qed.

(** The exponent of the annualized return, [1 / (days / 365)], is
    [365 / days] as a rational number. *)
Lemma annual_return_exponent (days : Z) :
  days <> 0%Z -> 1 / (inject_Z days / 365) == 365 / inject_Z days.
Proof.
  intros Hd. field. rewrite inject_Z_zero. exact Hd.
Qed.

(** On binary64 floats the two agree up to rounding: they are the same
    float over 365 days, and differ in the last place over 3 days. *)
Lemma b64_annual_return_exponent :
  (1 / (365 / 365) = 365 / 365)%float /\
  (1 / (3 / 365) =? 365 / 3)%float = false /\
  (1 / (3 / 365) = next_up (365 / 3))%float.
Proof.
  split; [|split]; vm_compute; reflexivity.
Qed.

(** C6 (annualized return): with [days] the whole days from the first to
    the last point of the curve, the computation raises ZeroDivisionError
    when [days] is 0, and when the start value is 0; otherwise it evaluates
    [(end_value / start_value) ** e] for the exponent [e = 1 / (days / 365)],
    the code's form of [365 / days]: when [**] returns [p] the annualized
    return is [p - 1], and when [**] raises, the exception is that of the
    computation and of [calc_metrics]. *)
Theorem annual_return_spec (eq_curve : list (Z * Q)) (first last : Z * Q) :
  index eq_curve 0 = Ok first ->
  index eq_curve (-1) = Ok last ->
  let days := timedelta_days (fst last - fst first) in
  (days = 0%Z ->
   annual_return fpow eq_curve = Raise ZeroDivisionError /\
   calc_metrics fpow fsqrt eq_curve = Raise ZeroDivisionError) /\
  (snd first == 0 ->
   annual_return fpow eq_curve = Raise ZeroDivisionError /\
   calc_metrics fpow fsqrt eq_curve = Raise ZeroDivisionError) /\
  (days <> 0%Z -> ~ snd first == 0 ->
   let e := 1 / (inject_Z days / 365) in
   annual_return fpow eq_curve
   = (p <- fpow (Float (snd last / snd first)) e ;; Ok (number_sub p 1)) /\
   (forall x, fpow (Float (snd last / snd first)) e = Raise x ->
              calc_metrics fpow fsqrt eq_curve = Raise x) /\
   (forall a s d m,
      calc_metrics fpow fsqrt eq_curve = Ok (a, s, d, m) ->
      exists p, fpow (Float (snd last / snd first)) e = Ok p /\
                a = number_sub p 1)).
Proof.
  intros Hf Hl days.
  assert (Hyears : fdiv (inject_Z days) 365 = Ok (inject_Z days / 365))
    by (apply fdiv_Ok; intros C; discriminate C).
  assert (Hann : annual_return fpow eq_curve =
                 (base <- fdiv (snd last) (snd first) ;;
                  e <- fdiv 1 (inject_Z days / 365) ;;
                  p <- fpow (Float base) e ;;
                  Ok (number_sub p 1))).
  { unfold annual_return. rewrite Hf. cbn [bind]. rewrite Hl. cbn [bind].
    fold days. rewrite Hyears. reflexivity. }
  assert (Hcalc : forall x, annual_return fpow eq_curve = Raise x ->
                            calc_metrics fpow fsqrt eq_curve = Raise x).
  { intros x H. unfold calc_metrics. rewrite H. reflexivity. }
  split; [|split].
  - intros Hd.
    assert (H : annual_return fpow eq_curve = Raise ZeroDivisionError).
    { rewrite Hann. unfold fdiv at 1.
      destruct (Qeq_bool (snd first) 0); [reflexivity|]. cbn [bind].
      rewrite fdiv_zero; [reflexivity|]. rewrite Hd. reflexivity. }
    split; [exact H | apply Hcalc; exact H].
  - intros Hs.
    assert (H : annual_return fpow eq_curve = Raise ZeroDivisionError).
    { rewrite Hann, (fdiv_zero _ _ Hs). reflexivity. }
    split; [exact H | apply Hcalc; exact H].
  - intros Hd Hs e.
    assert (Hd' : ~ inject_Z days == 0) by (rewrite inject_Z_zero; exact Hd).
    assert (Hy : ~ inject_Z days / 365 == 0).
    { intros C. apply Hd'.
      setoid_replace (inject_Z days) with (inject_Z days / 365 * 365) by field.
      rewrite C. reflexivity. }
    assert (H : annual_return fpow eq_curve =
                (p <- fpow (Float (snd last / snd first)) e ;;
                 Ok (number_sub p 1))).
    { rewrite Hann, (fdiv_Ok _ _ Hs). cbn [bind]. rewrite (fdiv_Ok _ _ Hy).
      reflexivity. }
    split; [exact H|]. split.
    + intros x Hx. apply Hcalc. rewrite H, Hx. reflexivity.
    + intros a s d m Hc. apply calc_metrics_inv in Hc. destruct Hc as (Ha & _).
      rewrite H in Ha.
      destruct (fpow (Float (snd last / snd first)) e) as [p|x];
        [|discriminate Ha].
      exists p. split; [reflexivity|]. injection Ha as <-. reflexivity.
Qed.

(** ** Sharpe ratio *)

(** A single return sample passes the [if rets:] test; its square is taken,
    and the sum of the squares is divided by [len(rets) - 1 = 0]. *)
Lemma sharpe_of_single (r : Q) :
  sharpe_of fpow fsqrt [r]
  = (_ <- fpow (Float (r - sum [r] / inject_Z 1)) 2 ;;
     Raise ZeroDivisionError).
Proof.
  unfold sharpe_of. simpl length. change (Z.of_nat 1) with 1%Z.
  rewrite fdiv_Ok by (intros C; discriminate C). cbn [bind squares].
  destruct (fpow (Float (r - sum [r] / inject_Z 1)) 2); reflexivity.
Qed.

(** Two samples or more, when the squares are [sqs] and the root of the
    variance is the float [std]: the mean over the sample standard
    deviation, times [sqrt(6552)], and 0 when that deviation is 0. *)
Lemma sharpe_of_formula (rets : list Q) (sqs : list number) (var : number)
    (std : Q) :
  (2 <= length rets)%nat ->
  let n := Z.of_nat (length rets) in
  let avg := sum rets / inject_Z n in
  squares fpow avg rets = Ok sqs ->
  number_div (number_sum sqs) (inject_Z (n - 1)) = Ok var ->
  fpow var (1 # 2) = Ok (Float std) ->
  (std == 0 -> sharpe_of fpow fsqrt rets = Ok (Float 0)) /\
  (~ std == 0 ->
   sharpe_of fpow fsqrt rets = Ok (Float (avg / std * fsqrt 6552))).
Proof.
  intros Hlen n avg Hsq Hvar Hstd.
  assert (Hn : ~ inject_Z n == 0) by (rewrite inject_Z_zero; subst n; lia).
  assert (H : sharpe_of fpow fsqrt rets =
              if negb (Qeq_bool std 0)
              then q <- fdiv avg std ;; Ok (Float (q * fsqrt 6552))
              else Ok (Float 0)).
  { unfold sharpe_of. destruct rets as [|r rets]; [simpl in Hlen; lia|].
    fold n. rewrite (fdiv_Ok _ _ Hn). cbn [bind]. fold avg.
    rewrite Hsq. cbn [bind]. rewrite Hvar. cbn [bind]. rewrite Hstd.
    cbn [bind number_nonzero number_rdiv].
    destruct (negb (Qeq_bool std 0)); [|reflexivity].
    destruct (fdiv avg std); reflexivity. }
  rewrite H. split; intros Hs.
  - apply Qeq_bool_iff in Hs. rewrite Hs. reflexivity.
  - destruct (Qeq_bool std 0) eqn:E.
    + apply Qeq_bool_iff in E. contradiction.
    + simpl. rewrite (fdiv_Ok _ _ Hs). reflexivity.
Qed.

(** C5 (Sharpe ratio with fewer than two samples), evaluated on a curve of
    two points one day apart: the one return sample passes the [if rets:]
    test and, once its square is taken, the deviation divides by
    [len(rets) - 1 = 0]; so the block and [calc_metrics] never return there
    and, unless a [**] raises first, raise ZeroDivisionError where the claim
    has 0; they do raise ZeroDivisionError with a power that is exact at the
    whole exponents met here. *)
Theorem sharpe_one_sample_raises :
  let curve := [(0%Z, 1); (86400%Z, 11 # 10)] in
  let r := (11 # 10) / 1 - 1 in
  returns curve = Ok [r] /\
  sharpe fpow fsqrt curve
  = (_ <- fpow (Float (r - sum [r] / inject_Z 1)) 2 ;;
     Raise ZeroDivisionError) /\
  calc_metrics fpow fsqrt curve
  = (_ <- fpow (Float ((11 # 10) / 1)) (1 / (inject_Z 1 / 365)) ;;
     _ <- fpow (Float (r - sum [r] / inject_Z 1)) 2 ;;
     Raise ZeroDivisionError) /\
  (forall x, sharpe fpow fsqrt curve <> Ok x) /\
  (forall x, calc_metrics fpow fsqrt curve <> Ok x) /\
  sharpe ipow fsqrt curve = Raise ZeroDivisionError /\
  calc_metrics ipow fsqrt curve = Raise ZeroDivisionError /\
  sharpe_of fpow fsqrt [] = Ok (Float 0).
Proof.
  intros curve r.
  assert (Hr : returns curve = Ok [r]) by reflexivity.
  assert (Hs : sharpe fpow fsqrt curve
               = (_ <- fpow (Float (r - sum [r] / inject_Z 1)) 2 ;;
                  Raise ZeroDivisionError)).
  { unfold sharpe. rewrite Hr. cbn [bind]. apply sharpe_of_single. }
  assert (Hc : calc_metrics fpow fsqrt curve
               = (_ <- fpow (Float ((11 # 10) / 1)) (1 / (inject_Z 1 / 365)) ;;
                  _ <- fpow (Float (r - sum [r] / inject_Z 1)) 2 ;;
                  Raise ZeroDivisionError)).
  { unfold calc_metrics. rewrite Hs.
    change (annual_return fpow curve)
      with (p <- fpow (Float ((11 # 10) / 1)) (1 / (inject_Z 1 / 365)) ;;
            Ok (number_sub p 1)).
    destruct (fpow (Float ((11 # 10) / 1)) (1 / (inject_Z 1 / 365)));
      cbn [bind]; [|reflexivity].
    destruct (fpow (Float (r - sum [r] / inject_Z 1)) 2); reflexivity. }
  split; [exact Hr|]. split; [exact Hs|]. split; [exact Hc|].
  split; [|split; [|split; [|split]]].
  - intros x. rewrite Hs.
    destruct (fpow (Float (r - sum [r] / inject_Z 1)) 2); discriminate.
  - intros x. rewrite Hc.
    destruct (fpow (Float ((11 # 10) / 1)) (1 / (inject_Z 1 / 365)));
      cbn [bind]; [|discriminate].
    destruct (fpow (Float (r - sum [r] / inject_Z 1)) 2); discriminate.
  - vm_compute. reflexivity.
  - vm_compute. reflexivity.
  - reflexivity.
Qed.

End MetricsFacts.

(** ** Max drawdown *)

Lemma drawdown_bounds (p e : Q) :
  0 < e -> e <= p -> 0 <= (p - e) / p /\ (p - e) / p <= 1.
Proof.
  intros He Hp. assert (H : 0 < p) by lra. split.
  - apply Qle_shift_div_l; [exact H | lra].
  - apply Qle_shift_div_r; [exact H | lra].
Qed.

(** The loop after the points [pre] (the last of them at index [j]), with
    the running peak in [peak] and the largest drawdown so far in [md]. *)
Lemma dd_loop_max (rest pre : list Q) (j : nat) (peak md d : Q) :
  length pre = S j ->
  peak == running_max (pre ++ rest) j ->
  0 <= md ->
  (exists i, (i <= j)%nat /\ md == drawdown_at (pre ++ rest) i) ->
  (forall i, (i <= j)%nat -> drawdown_at (pre ++ rest) i <= md) ->
  dd_loop peak md rest = Ok d ->
  0 <= d /\
  (exists i, (i < length (pre ++ rest))%nat /\
             d == drawdown_at (pre ++ rest) i) /\
  (forall i, (i < length (pre ++ rest))%nat ->
             drawdown_at (pre ++ rest) i <= d).
Proof.
  revert pre j peak md.
  induction rest as [|e rest IH];
    intros pre j peak md Hlen Hpeak Hmd0 Hex Hall Hrun; simpl in Hrun.
  - injection Hrun as <-. rewrite app_nil_r in *.
    split; [exact Hmd0|].
    destruct Hex as (i & Hi & Hd). split.
    + exists i. split; [lia | exact Hd].
    + intros k Hk. apply Hall. lia.
  - set (l := pre ++ e :: rest) in *.
    assert (Hnth : nth (S j) l 0 = e).
    { subst l. rewrite <- Hlen. apply nth_middle. }
    set (p' := if Qlt_bool peak e then e else peak) in *.
    assert (Hrm : running_max l (S j) == p').
    { simpl running_max. rewrite Hnth. subst p'.
      destruct (Qlt_bool peak e) eqn:E.
      - apply Qlt_bool_iff in E. apply Q.max_r. rewrite <- Hpeak. lra.
      - apply Qlt_bool_false in E.
        rewrite Hpeak. apply Q.max_l. rewrite <- Hpeak. exact E. }
    inv_bind Hrun. apply fdiv_inv in Ha. destruct Ha as [Hp'0 ->].
    set (dd := (p' - e) / p') in *.
    assert (Hdd : dd == drawdown_at l (S j)).
    { unfold drawdown_at. rewrite Hnth, Hrm. reflexivity. }
    set (md' := if Qlt_bool md dd then dd else md) in *.
    assert (Hmd' : md <= md' /\ dd <= md' /\ (md' = md \/ md' = dd)).
    { subst md'. destruct (Qlt_bool md dd) eqn:E.
      - apply Qlt_bool_iff in E. repeat split; try lra. right. reflexivity.
      - apply Qlt_bool_false in E. repeat split; try lra. left. reflexivity. }
    destruct Hmd' as (Hle1 & Hle2 & Hcase).
    assert (El : (pre ++ [e]) ++ rest = l).
    { subst l. rewrite <- app_assoc. reflexivity. }
    specialize (IH (pre ++ [e]) (S j) p' md'). rewrite El in IH.
    apply IH.
    + rewrite length_app, Hlen. simpl. lia.
    + symmetry. exact Hrm.
    + lra.
    + destruct Hcase as [-> | ->].
      * destruct Hex as (i & Hi & Hdi). exists i. split; [lia | exact Hdi].
      * exists (S j). split; [lia | exact Hdd].
    + intros i Hi. destruct (Nat.eq_dec i (S j)) as [-> | Hne].
      * rewrite <- Hdd. exact Hle2.
      * apply Qle_trans with md; [apply Hall; lia | exact Hle1].
    + exact Hrun.
Qed.

(** On positive equity values the loop returns, 1 at most. *)
Lemma dd_loop_positive (rest : list Q) (peak md : Q) :
  0 < peak -> md <= 1 -> Forall (fun e => 0 < e) rest ->
  exists d, dd_loop peak md rest = Ok d /\ d <= 1.
Proof.
  revert peak md.
  induction rest as [|e rest IH]; intros peak md Hp Hmd Hpos; simpl.
  - exists md. split; [reflexivity | exact Hmd].
  - inversion Hpos as [|? ? He Hpos']; subst.
    set (p' := if Qlt_bool peak e then e else peak).
    assert (Hp' : 0 < p' /\ e <= p').
    { subst p'. destruct (Qlt_bool peak e) eqn:E.
      - split; [exact He | lra].
      - apply Qlt_bool_false in E. split; [exact Hp | exact E]. }
    destruct Hp' as [Hp'0 Hep'].
    rewrite fdiv_Ok by lra. cbn [bind].
    destruct (drawdown_bounds p' e He Hep') as [_ Hdd1].
    apply IH; [exact Hp'0| |exact Hpos'].
    destruct (Qlt_bool md ((p' - e) / p')); assumption.
Qed.

(** C7 as amended (max drawdown): whenever the computation returns, the
    result is the largest of the drawdowns [(peak - equity) / peak] over the
    points of the curve, [peak] being the running maximum up to the point,
    and is at least 0; on a non-empty curve of strictly positive equity
    values it returns and the result is at most 1; on the curve
    [1.0, 1.2, 0.9, 1.1] it is the quotient [(1.2 - 0.9) / 1.2].  On binary64
    floats that quotient is 0.24999999999999994, below 0.25, and the bound 1
    is attained on the positive curve [1.0, 2^-60], whose drawdown
    [(1 - 2^-60) / 1] rounds to 1. *)
Theorem max_drawdown_spec :
  (forall (eq_curve : list (Z * Q)) (d : Q),
     max_drawdown eq_curve = Ok d ->
     0 <= d /\
     (exists i, (i < length eq_curve)%nat /\
                d == drawdown_at (map snd eq_curve) i) /\
     (forall i, (i < length eq_curve)%nat ->
                drawdown_at (map snd eq_curve) i <= d)) /\
  (forall eq_curve : list (Z * Q),
     eq_curve <> [] ->
     Forall (fun p => 0 < snd p) eq_curve ->
     exists d, max_drawdown eq_curve = Ok d /\ 0 <= d /\ d <= 1) /\
  (forall t0 t1 t2 t3 : Z,
     max_drawdown [(t0, 1); (t1, 12 # 10); (t2, 9 # 10); (t3, 11 # 10)]
     = Ok (((12 # 10) - (9 # 10)) / (12 # 10))) /\
  (forall t0 t1 t2 t3 : Z,
     exists d,
       B64.max_drawdown
         [(t0, 1); (t1, 0x1.3333333333333p+0); (t2, 0x1.ccccccccccccdp-1);
          (t3, 0x1.199999999999ap+0)]%float = Ok d /\
       d = ((0x1.3333333333333p+0 - 0x1.ccccccccccccdp-1)
            / 0x1.3333333333333p+0)%float /\
       d = 0x1.ffffffffffffep-3%float /\
       (d <? 0x1p-2)%float = true) /\
  (forall t0 t1 : Z,
     B64.max_drawdown [(t0, 1); (t1, 0x1p-60)]%float = Ok 1%float).
Proof.
  assert (Hmax : forall (eq_curve : list (Z * Q)) (d : Q),
     max_drawdown eq_curve = Ok d ->
     0 <= d /\
     (exists i, (i < length eq_curve)%nat /\
                d == drawdown_at (map snd eq_curve) i) /\
     (forall i, (i < length eq_curve)%nat ->
                drawdown_at (map snd eq_curve) i <= d)).
  { intros eq_curve d H.
    destruct eq_curve as [|[t0 e0] curve];
      [unfold max_drawdown in H; rewrite index_nil in H; discriminate H|].
    unfold max_drawdown in H. rewrite index_0_cons in H. cbn [bind] in H.
    simpl in H.
    assert (Hsame : (if Qlt_bool e0 e0 then e0 else e0) = e0)
      by (destruct (Qlt_bool e0 e0); reflexivity).
    rewrite Hsame in H. inv_bind H. apply fdiv_inv in Ha.
    destruct Ha as [He0 ->].
    assert (Hz : (e0 - e0) / e0 == 0) by (field; exact He0).
    replace (Qlt_bool 0 ((e0 - e0) / e0)) with false in H
      by (symmetry; apply Qlt_bool_false; rewrite Hz; lra).
    assert (Hd0 : drawdown_at ([e0] ++ map snd curve) 0 == 0).
    { unfold drawdown_at. simpl. exact Hz. }
    rewrite <- (length_map snd).
    apply (dd_loop_max (map snd curve) [e0] 0 e0 0 d);
      try reflexivity; try lra; try assumption.
    - exists O. split; [lia | symmetry; exact Hd0].
    - intros i Hi. replace i with O by lia. rewrite Hd0. lra. }
  split; [exact Hmax|]. split; [|split; [|split]].
  - intros eq_curve Hne Hpos.
    destruct eq_curve as [|[t0 e0] curve]; [contradiction|].
    assert (He0 : 0 < e0) by (inversion Hpos; assumption).
    destruct (dd_loop_positive (map snd ((t0, e0) :: curve)) e0 0)
      as (d & Hd & Hd1); try lra.
    + apply Forall_map. exact Hpos.
    + assert (H : max_drawdown ((t0, e0) :: curve) = Ok d).
      { unfold max_drawdown. rewrite index_0_cons. exact Hd. }
      exists d. split; [exact H|]. split; [|lra].
      apply (Hmax _ _ H).
  - intros t0 t1 t2 t3. reflexivity.
  - intros t0 t1 t2 t3. eexists. split; [vm_compute; reflexivity|].
    split; [|split]; vm_compute; reflexivity.
  - intros t0 t1. vm_compute. reflexivity.
Qed.

Lemma max_drawdown_spec_witness :
  exists d,
    max_drawdown [(0%Z, 1); (900%Z, 11 # 10); (1800%Z, 1)] = Ok d /\
    0 <= d /\ d <= 1.
Proof.
  apply (proj1 (proj2 max_drawdown_spec)
           [(0%Z, 1); (900%Z, 11 # 10); (1800%Z, 1)]).
  - discriminate.
  - repeat constructor.
Defined.

(** C7 as stated fails: the curve that [run_strategy] returns for
    [fall_rise_rows] with the default windows ends at -19/10 after a peak of
    19/10, and its max drawdown is 2. *)
Lemma max_drawdown_not_below_one :
  exists curve ts d,
    run_strategy 20 50 fall_rise_rows = Ok (curve, ts) /\
    max_drawdown curve = Ok d /\ d == 2 /\ ~ d < 1.
Proof.
  eexists _, _, _.
  split; [vm_compute; reflexivity|].
  split; [vm_compute; reflexivity|].
  split; [vm_compute; reflexivity|].
  intros H. vm_compute in H. discriminate H.
Qed.

Lemma annual_return_spec_witness :
  annual_return ipow [(0%Z, 1); (31536000%Z, 11 # 10)]
  = (p <- ipow (Float ((11 # 10) / 1)) (1 / (inject_Z 365 / 365)) ;;
     Ok (number_sub p 1)) /\
  annual_return ipow [(0%Z, 1); (31536000%Z, 11 # 10)]
  = Ok (Float (((11 # 10) / 1) ^ 1 - 1)).
Proof.
  destruct (annual_return_spec ipow (fun x => x)
              [(0%Z, 1); (31536000%Z, 11 # 10)]
              (0%Z, 1) (31536000%Z, 11 # 10) eq_refl eq_refl) as (_ & _ & H).
  destruct H as (Ha & _).
  - vm_compute. discriminate.
  - intros C. discriminate C.
  - split; [exact Ha | reflexivity].
Defined.

(** * Further properties *)

(** ** buy_and_hold *)

(** The loop returns exactly when every divisor it meets is non-zero: the
    incoming [last] and every close but the final one. *)
Lemma buy_and_hold_loop_ok (rows : list Row) (equity last : Q) :
  (exists curve, buy_and_hold_loop equity last rows = Ok curve) <->
  (rows = [] \/
   (~ last == 0 /\ Forall (fun row => ~ Close row == 0) (removelast rows))).
Proof.
  revert equity last.
  induction rows as [|row rows IH]; intros equity last.
  - simpl. split; [intros _; left; reflexivity | intros _; eexists; reflexivity].
  - cbn [buy_and_hold_loop]. split.
    + intros (curve & H). right.
      inv_bind H. apply fdiv_inv in Ha. destruct Ha as [Hlast ->].
      inv_bind H. split; [exact Hlast|].
      assert (Hex : exists c, buy_and_hold_loop (equity * (Close row / last))
                                (Close row) rows = Ok c)
        by (eexists; exact Ha).
      apply IH in Hex.
      destruct Hex as [-> | [Hrow Hrest]]; [constructor|].
      destruct rows as [|row' rows']; [constructor|].
      change (removelast (row :: row' :: rows'))
        with (row :: removelast (row' :: rows')).
      constructor; assumption.
    + intros [H | [Hlast Hrows]]; [discriminate H|].
      rewrite (fdiv_Ok _ _ Hlast). cbn [bind].
      assert (Hex : exists c, buy_and_hold_loop (equity * (Close row / last))
                                (Close row) rows = Ok c).
      { apply IH. destruct rows as [|row' rows']; [left; reflexivity|].
        right.
        change (removelast (row :: row' :: rows'))
          with (row :: removelast (row' :: rows')) in Hrows.
        inversion Hrows; subst. split; assumption. }
      destruct Hex as (c & ->). eexists; reflexivity.
Qed.

(** X2: [buy_and_hold] raises IndexError on an empty sequence, and on a
    non-empty one it returns a curve exactly when the first close and every
    close but the last are non-zero. *)
Theorem buy_and_hold_returns_iff :
  buy_and_hold [] = Raise IndexError /\
  forall (first : Row) (rest : list Row),
    (exists curve, buy_and_hold (first :: rest) = Ok curve) <->
    (~ Close first == 0 /\
     Forall (fun row => ~ Close row == 0) (removelast (first :: rest))).
Proof.
  split; [reflexivity|].
  intros first rest. unfold buy_and_hold. rewrite index_0_cons. cbn [bind].
  rewrite buy_and_hold_loop_ok. split.
  - intros [H | H]; [discriminate H | exact H].
  - intros H. right. exact H.
Qed.

(** The loop entered with the equity [equity] and the previous close
    [last]: one point per bar, the first being [equity * (close / last)] and
    each next one the previous value times the bar's close over the previous
    bar's close. *)
Lemma buy_and_hold_loop_steps (rows : list Row) (equity last : Q)
    (curve : list (Z * Q)) :
  buy_and_hold_loop equity last rows = Ok curve ->
  map fst curve = map Datetime rows /\
  (forall row p,
     nth_error rows 0 = Some row -> nth_error curve 0 = Some p ->
     snd p = equity * (Close row / last)) /\
  (forall i row row' p p',
     nth_error rows i = Some row -> nth_error rows (S i) = Some row' ->
     nth_error curve i = Some p -> nth_error curve (S i) = Some p' ->
     snd p' = snd p * (Close row' / Close row)).
Proof.
  revert equity last curve.
  induction rows as [|row rows IH]; intros equity last curve H;
    cbn [buy_and_hold_loop] in H.
  - injection H as <-. split; [reflexivity|].
    split; [intros row p C; discriminate C|].
    intros i row row' p p' C. destruct i; discriminate C.
  - inv_bind H. apply fdiv_inv in Ha. destruct Ha as [Hlast ->].
    inv_bind H. injection H as <-.
    destruct (IH _ _ _ Ha) as (Hfst & Hhead & Hnext).
    split; [simpl; now rewrite Hfst|]. split.
    + intros row0 p Hr Hp. simpl in Hr, Hp.
      injection Hr as <-. injection Hp as <-. reflexivity.
    + intros i row0 row' p p' Hr Hr' Hp Hp'. destruct i as [|i].
      * simpl in Hr, Hr', Hp, Hp'. injection Hr as <-. injection Hp as <-.
        simpl. destruct rows as [|r1 rows']; [discriminate Hr'|].
        destruct a as [|p1 a']; [discriminate Hp'|].
        exact (Hhead row' p' Hr' Hp').
      * simpl in Hr, Hr', Hp, Hp'.
        exact (Hnext i row0 row' p p' Hr Hr' Hp Hp').
Qed.

(** X1: whenever [buy_and_hold] returns, the curve has one point per bar,
    with the bar's timestamp; its first value is 1, and every later value is
    the value before it times the bar's close over the previous bar's
    close. *)
Theorem buy_and_hold_compounds_price_ratios (rows : list Row)
    (curve : list (Z * Q)) :
  buy_and_hold rows = Ok curve ->
  map fst curve = map Datetime rows /\
  (exists first p,
     index rows 0 = Ok first /\ index curve 0 = Ok p /\
     fst p = Datetime first /\ snd p == 1) /\
  (forall i row row' p p',
     nth_error rows i = Some row -> nth_error rows (S i) = Some row' ->
     nth_error curve i = Some p -> nth_error curve (S i) = Some p' ->
     snd p' = snd p * (Close row' / Close row)).
Proof.
  unfold buy_and_hold. intros H. inv_bind H. rename a into first.
  destruct rows as [|row rows]; [rewrite index_nil in Ha; discriminate Ha|].
  rewrite index_0_cons in Ha. injection Ha as ->.
  destruct (buy_and_hold_loop_steps _ _ _ _ H) as (Hfst & Hhead & Hnext).
  split; [exact Hfst|]. split; [|exact Hnext].
  destruct curve as [|p curve]; [discriminate Hfst|].
  exists first, p. rewrite !index_0_cons.
  split; [reflexivity|]. split; [reflexivity|].
  split; [simpl in Hfst; injection Hfst as E _; exact E|].
  rewrite (Hhead first p eq_refl eq_refl).
  cbn [buy_and_hold_loop] in H. inv_bind H. apply fdiv_inv in Ha.
  destruct Ha as [Hc0 _]. field. exact Hc0.
Qed.

Lemma buy_and_hold_compounds_price_ratios_witness :
  exists curve,
    buy_and_hold spike_rows = Ok curve /\
    map fst curve = map Datetime spike_rows /\
    nth_error curve 4 = Some (5%Z, 1 * (10 / 10) * (10 / 10) * (10 / 10)
                                     * (1 / 10) * (3 / 1)).
Proof.
  eexists. split; [vm_compute; reflexivity|].
  split; [|reflexivity].
  apply (buy_and_hold_compounds_price_ratios spike_rows _ eq_refl).
Defined.

Lemma buy_and_hold_returns_iff_witness :
  exists curve, buy_and_hold spike_rows = Ok curve.
Proof.
  apply (proj2 buy_and_hold_returns_iff (bar 1 10) (tl spike_rows)).
  split.
  - intros H. discriminate H.
  - simpl. repeat constructor; intros H; discriminate H.
Defined.

(** ** The shape of the trade log *)

Lemma transition_cases (position : Z) (trades : list Trade.t)
    (cross_up cross_dn : bool) (time : Z) (close : Q)
    (position' : Z) (trades' : list Trade.t) :
  log_inv position trades ->
  transition position trades cross_up cross_dn time close
    = Ok (position', trades') ->
  (position' = position /\ trades' = trades) \/
  (position = 0%Z /\ trades = [] /\
   (position' = 1%Z \/ position' = (-1)%Z) /\
   trades' = [Trade.init time close position']) \/
  (exists old tr,
     trades = old ++ [tr] /\ Trade.position tr = position /\
     (position = 1%Z \/ position = (-1)%Z) /\
     position' = (- position)%Z /\
     trades' = old ++ [Trade.close tr time close;
                       Trade.init time close position']).
Proof.
  intros [[-> ->] | [Hp (old & tr & -> & _ & _ & Hdir)]] H;
    unfold transition in H.
  - simpl in H. destruct cross_up; [|destruct cross_dn];
      injection H as <- <-; auto 10.
  - assert (Hflip : forall p', p' = (- position)%Z ->
              (ts <- close_last (old ++ [tr]) time close ;;
               Ok (p', ts ++ [Trade.init time close p'])) = Ok (position', trades') ->
              position' = (- position)%Z /\
              trades' = old ++ [Trade.close tr time close;
                                Trade.init time close position']).
    { intros p' Hp' E. rewrite close_last_snoc in E. cbn [bind] in E.
      injection E as <- <-. split; [exact Hp'|].
      rewrite <- app_assoc. reflexivity. }
    destruct Hp as [-> | ->]; simpl in H.
    + destruct cross_dn.
      * right. right. exists old, tr.
        destruct (Hflip (-1)%Z eq_refl H) as [-> ->]. auto 10.
      * injection H as <- <-. left. auto.
    + destruct cross_up.
      * right. right. exists old, tr.
        destruct (Hflip 1%Z eq_refl H) as [-> ->]. auto 10.
      * injection H as <- <-. left. auto.
Qed.

Lemma chained_close_last (old : list Trade.t) (tr : Trade.t) (t : Z) (c : Q) :
  chained (old ++ [tr]) -> chained (old ++ [Trade.close tr t c]).
Proof.
  induction old as [|a old IH]; intros H; [exact I|].
  destruct old as [|b old].
  - simpl in *. tauto.
  - simpl in H. destruct H as (H1 & H2 & H3 & H4).
    simpl. repeat split; try assumption. apply IH. exact H4.
Qed.

Lemma chained_flip (old : list Trade.t) (tr : Trade.t) (t : Z) (c : Q) :
  chained (old ++ [tr]) ->
  chained (old ++ [Trade.close tr t c;
                   Trade.init t c (- Trade.position tr)]).
Proof.
  induction old as [|a old IH]; intros H.
  - simpl. repeat split.
  - destruct old as [|b old].
    + simpl in *. tauto.
    + simpl in H. destruct H as (H1 & H2 & H3 & H4).
      simpl. repeat split; try assumption. apply IH. exact H4.
Qed.

Section StrategyLog.

Variables SHORT_WINDOW LONG_WINDOW : Z.

Local Abbreviation step' := (step SHORT_WINDOW LONG_WINDOW).
Local Abbreviation run_loop' := (run_loop SHORT_WINDOW LONG_WINDOW).
Local Abbreviation run_strategy' := (run_strategy SHORT_WINDOW LONG_WINDOW).
Local Abbreviation eligible' := (eligible LONG_WINDOW).

(** What a bar does to the position and the log: nothing, or, at a bar
    whose crossover is evaluated, a first entry or a flip. *)
Lemma step_cases (st st' : State) (row : Row) :
  log_inv (position st) (trades st) ->
  step' st row = Ok st' ->
  (position st' = position st /\ trades st' = trades st) \/
  (eligible' (closes st ++ [Close row]) = true /\
   ((position st = 0%Z /\ trades st = [] /\
     (position st' = 1%Z \/ position st' = (-1)%Z) /\
     trades st' = [Trade.init (Datetime row) (Close row) (position st')]) \/
    (exists old tr,
       trades st = old ++ [tr] /\ Trade.position tr = position st /\
       (position st = 1%Z \/ position st = (-1)%Z) /\
       position st' = (- position st)%Z /\
       trades st' = old ++ [Trade.close tr (Datetime row) (Close row);
                            Trade.init (Datetime row) (Close row)
                                       (position st')]))).
Proof.
  intros Hinv H. apply step_inv in H. destruct H as (Hsig & _).
  unfold signal_block in Hsig.
  destruct (eligible' _).
  - apply crossover_inv in Hsig. destruct Hsig as (cu & cd & Htr).
    destruct (transition_cases _ _ _ _ _ _ _ _ Hinv Htr) as [H | H].
    + left. exact H.
    + right. split; [reflexivity | exact H].
  - injection Hsig as <- <-. left. auto.
Qed.

(** X3: along a run the position is 0, 1 or -1, it is 0 exactly while the
    log is empty, and once it has left 0 it never comes back to it; the log
    only grows. *)
Theorem position_never_returns_flat (first : Row) (rows1 rows2 : list Row)
    (st1 st2 : State) :
  run_loop' (init_state first) rows1 = Ok st1 ->
  run_loop' st1 rows2 = Ok st2 ->
  (position st2 = 0%Z \/ position st2 = 1%Z \/ position st2 = (-1)%Z) /\
  (position st2 = 0%Z <-> trades st2 = []) /\
  (position st1 <> 0%Z -> position st2 <> 0%Z) /\
  (length (trades st1) <= length (trades st2))%nat.
Proof.
  intros H1 H2.
  pose proof (run_loop_log _ _ _ _ _ (init_state_log first) H1) as Hinv1.
  pose proof (run_loop_log _ _ _ _ _ Hinv1 H2) as Hinv2.
  split; [|split].
  - destruct Hinv2 as [[-> _] | [[-> | ->] _]]; auto.
  - destruct Hinv2 as [[-> ->] | [Hp (old & tr & -> & _)]].
    + split; reflexivity.
    + split.
      * intros E. rewrite E in Hp. destruct Hp; discriminate.
      * intros E. destruct old; discriminate E.
  - clear H1. revert st1 Hinv1 H2.
    induction rows2 as [|row rows2 IH]; intros st1 Hinv1 H2; simpl in H2.
    + injection H2 as <-. split; [tauto | lia].
    + inv_bind H2. rename a into st.
      destruct (step_log _ _ _ _ _ Hinv1 Ha) as [Hinv _].
      destruct (IH st Hinv H2) as [IHp IHl].
      destruct (step_cases _ _ _ Hinv1 Ha)
        as [[Hp Ht] | [_ [(Hp & Ht & _ & Ht') | (old & tr & Ht & _ & Hp & Hp' & Ht')]]].
      * rewrite <- Hp, <- Ht. split; assumption.
      * split; [intros C; contradiction|]. rewrite Ht. simpl. lia.
      * split.
        -- intros _. apply IHp. rewrite Hp'. destruct Hp as [-> | ->]; discriminate.
        -- rewrite Ht' in IHl. rewrite Ht. rewrite !length_app in *.
           simpl in *. lia.
Qed.

Lemma index_In {A : Type} (l : list A) (i : Z) (a : A) :
  index l i = Ok a -> In a l.
Proof.
  unfold index.
  destruct (_ || _)%bool; [discriminate|].
  destruct (nth_error l _) eqn:E; [|discriminate].
  intros H. injection H as <-. apply (nth_error_In _ _ E).
Qed.

(** What [run_strategy] returns, from the state at the end of its loop. *)
Lemma run_strategy_log (rows : list Row) (curve : list (Z * Q))
    (ts : list Trade.t) :
  run_strategy' rows = Ok (curve, ts) ->
  exists first lastrow st,
    index rows 0 = Ok first /\ index rows (-1) = Ok lastrow /\
    run_loop' (init_state first) rows = Ok st /\
    curve = eq_curve st /\
    log_inv (position st) (trades st) /\
    ((trades st = [] /\ ts = []) \/
     exists old tr,
       trades st = old ++ [tr] /\
       ts = old ++ [Trade.close tr (Datetime lastrow) (Close lastrow)]).
Proof.
  intros H.
  destruct (run_strategy_inv _ _ _ _ _ H)
    as (first & lastrow & st & H0 & Hl & Hrun & Hc & Hts).
  pose proof (run_loop_log _ _ _ _ _ (init_state_log first) Hrun) as Hinv.
  exists first, lastrow, st. repeat split; try assumption.
  destruct (close_open_trade_spec _ _ _ _ Hinv Hl) as (ts' & Hts' & _ & Hopen & _).
  rewrite Hts in Hts'. injection Hts' as <-.
  destruct Hinv as [[_ E] | [_ (old & tr & E & _ & Ho & _)]].
  - left. rewrite E in Hts. simpl in Hts. injection Hts as <-. auto.
  - right. exists old, tr. split; [exact E | apply (Hopen old tr E Ho)].
Qed.

Lemma run_loop_chained (rows : list Row) (st st' : State) :
  log_inv (position st) (trades st) ->
  chained (trades st) ->
  Forall (fun tr => Trade.position tr = 1%Z \/ Trade.position tr = (-1)%Z)
         (trades st) ->
  run_loop' st rows = Ok st' ->
  chained (trades st') /\
  Forall (fun tr => Trade.position tr = 1%Z \/ Trade.position tr = (-1)%Z)
         (trades st').
Proof.
  revert st.
  induction rows as [|row rows IH]; intros st Hinv Hch Hdir H; simpl in H.
  - injection H as <-. split; assumption.
  - inv_bind H. rename a into st1.
    destruct (step_log _ _ _ _ _ Hinv Ha) as [Hinv1 _].
    apply (IH st1 Hinv1); [| |exact H].
    + destruct (step_cases _ _ _ Hinv Ha)
        as [[_ ->] | [_ [(_ & _ & _ & ->) | (old & tr & Ht & Hd & _ & Hp' & ->)]]].
      * exact Hch.
      * exact I.
      * rewrite Hp', <- Hd. apply chained_flip. rewrite <- Ht. exact Hch.
    + destruct (step_cases _ _ _ Hinv Ha)
        as [[_ ->] | [_ [(_ & _ & Hp & ->) | (old & tr & Ht & Hd & Hp & Hp' & ->)]]].
      * exact Hdir.
      * constructor; [exact Hp | constructor].
      * rewrite Ht in Hdir. apply Forall_app in Hdir. destruct Hdir as [Hold Htr].
        apply Forall_app. split; [exact Hold|].
        inversion Htr as [|? ? Htr1 _]; subst.
        constructor; [exact Htr1|]. constructor; [|constructor].
        simpl. rewrite Hp'. lia.
Qed.

(** X4: in the log that [run_strategy] returns every trade is long or
    short, each trade is closed at the timestamp and price at which the next
    one is entered, and the next one takes the opposite direction. *)
Theorem returned_log_is_chained (rows : list Row) (curve : list (Z * Q))
    (ts : list Trade.t) :
  run_strategy' rows = Ok (curve, ts) ->
  chained ts /\
  Forall (fun tr => Trade.position tr = 1%Z \/ Trade.position tr = (-1)%Z) ts.
Proof.
  intros H.
  destruct (run_strategy_log _ _ _ H)
    as (first & lastrow & st & _ & _ & Hrun & _ & _ & Hts).
  destruct (run_loop_chained rows (init_state first) st)
    as [Hch Hdir]; try assumption;
    [apply init_state_log | exact I | constructor |].
  destruct Hts as [[_ ->] | (old & tr & E & ->)].
  - split; [exact I | constructor].
  - rewrite E in Hch, Hdir. split; [apply chained_close_last; exact Hch|].
    apply Forall_app in Hdir. destruct Hdir as [Hold Htr].
    apply Forall_app. split; [exact Hold|].
    inversion Htr as [|? ? Htr1 _]; subst.
    constructor; [exact Htr1 | constructor].
Qed.

Lemma run_loop_count (rows : list Row) (st st' : State) :
  log_inv (position st) (trades st) ->
  (Z.of_nat (length (trades st))
   <= Z.max 0 (Z.of_nat (length (closes st)) - LONG_WINDOW))%Z ->
  run_loop' st rows = Ok st' ->
  (Z.of_nat (length (trades st'))
   <= Z.max 0 (Z.of_nat (length (closes st')) - LONG_WINDOW))%Z.
Proof.
  revert st.
  induction rows as [|row rows IH]; intros st Hinv Hb H; simpl in H.
  - injection H as <-. exact Hb.
  - inv_bind H. rename a into st1.
    destruct (step_log _ _ _ _ _ Hinv Ha) as [Hinv1 _].
    apply (IH st1 Hinv1); [|exact H].
    destruct (step_inv _ _ _ _ _ Ha) as (_ & _ & Hcl & _).
    rewrite Hcl, length_app. simpl length.
    destruct (step_cases _ _ _ Hinv Ha)
      as [[_ ->] | [He [(_ & Ht & _ & ->) | (old & tr & Ht & _ & _ & _ & ->)]]].
    + lia.
    + unfold eligible in He. rewrite length_app in He. simpl length in He.
      rewrite Z.gtb_ltb, Z.ltb_lt in He. simpl length. lia.
    + unfold eligible in He. rewrite length_app in He. simpl length in He.
      rewrite Z.gtb_ltb, Z.ltb_lt in He.
      rewrite Ht in Hb. rewrite length_app in *. simpl length in *. lia.
Qed.

(** X5: [run_strategy] enters at most one trade per bar whose crossover is
    evaluated: the returned log has at most [len(rows) - LONG_WINDOW]
    trades, and none when that is negative. *)
Theorem trade_count_bound (rows : list Row) (curve : list (Z * Q))
    (ts : list Trade.t) :
  run_strategy' rows = Ok (curve, ts) ->
  (Z.of_nat (length ts)
   <= Z.max 0 (Z.of_nat (length rows) - LONG_WINDOW))%Z.
Proof.
  intros H.
  destruct (run_strategy_log _ _ _ H)
    as (first & lastrow & st & _ & _ & Hrun & _ & _ & Hts).
  pose proof (run_loop_count rows (init_state first) st
                (init_state_log first)) as Hb.
  simpl in Hb. specialize (Hb ltac:(lia) Hrun).
  rewrite (run_loop_closes _ _ _ _ _ Hrun) in Hb. simpl in Hb.
  rewrite length_map in Hb.
  destruct Hts as [[_ ->] | (old & tr & E & ->)]; [simpl; lia|].
  rewrite E in Hb. rewrite length_app in *. simpl length in *. exact Hb.
Qed.

(** ** Where and when trades are made *)

Lemma last_bar_in_suffix (rows : list Row) (n : nat) (row lastrow : Row) :
  In row (skipn n rows) -> index rows (-1) = Ok lastrow ->
  In lastrow (skipn n rows).
Proof.
  intros Hin Hl.
  assert (Hne : skipn n rows <> []) by (intros E; rewrite E in Hin; exact Hin).
  destruct (exists_last Hne) as (b & y & E).
  rewrite <- (firstn_skipn n rows), E, app_assoc, index_last_snoc in Hl.
  injection Hl as <-. rewrite E. apply in_or_app. right. left. reflexivity.
Qed.

Lemma run_loop_from_bars (bars rows : list Row) (st st' : State) :
  log_inv (position st) (trades st) ->
  Forall (from_bars bars) (trades st) ->
  (forall k row, nth_error rows k = Some row ->
     (LONG_WINDOW < Z.of_nat (length (closes st) + k + 1))%Z -> In row bars) ->
  run_loop' st rows = Ok st' ->
  Forall (from_bars bars) (trades st').
Proof.
  revert st.
  induction rows as [|row rows IH]; intros st Hinv Hall Hel H; simpl in H.
  - injection H as <-. exact Hall.
  - inv_bind H. rename a into st1.
    destruct (step_log _ _ _ _ _ Hinv Ha) as [Hinv1 _].
    destruct (step_inv _ _ _ _ _ Ha) as (_ & _ & Hcl & _).
    assert (Hbar : eligible' (closes st ++ [Close row]) = true ->
                   at_bar bars (Datetime row) (Close row)).
    { intros He. exists row. split; [|split; reflexivity].
      apply (Hel O row eq_refl).
      unfold eligible in He. rewrite length_app in He. simpl length in He.
      rewrite Z.gtb_ltb, Z.ltb_lt in He. lia. }
    apply (IH st1 Hinv1); [| |exact H].
    + destruct (step_cases _ _ _ Hinv Ha)
        as [[_ ->] | [He [(_ & _ & _ & ->) | (old & tr & Ht & _ & _ & _ & ->)]]].
      * exact Hall.
      * constructor; [|constructor]. split; [apply Hbar; exact He|].
        left. split; reflexivity.
      * rewrite Ht in Hall. apply Forall_app in Hall. destruct Hall as [Hold Htr].
        inversion Htr as [|? ? [Hentry _] _]; subst.
        apply Forall_app. split; [exact Hold|].
        constructor; [|constructor; [|constructor]].
        -- split; [exact Hentry|]. right.
           exists (Datetime row), (Close row).
           repeat split. apply Hbar. exact He.
        -- split; [apply Hbar; exact He|]. left. split; reflexivity.
    + intros k r Hk Hlt. apply (Hel (S k) r Hk).
      rewrite Hcl, length_app in Hlt. simpl length in Hlt. lia.
Qed.

(** X6: every trade of the log that [run_strategy] returns is entered at
    the timestamp and close of a bar that comes after the first
    [LONG_WINDOW] bars, and is closed at the timestamp and close of such a
    bar. *)
Theorem trades_are_made_at_bar_closes (rows : list Row)
    (curve : list (Z * Q)) (ts : list Trade.t) :
  run_strategy' rows = Ok (curve, ts) ->
  Forall (fun tr =>
            at_bar (skipn (Z.to_nat LONG_WINDOW) rows)
                   (Trade.time tr) (Trade.price tr) /\
            exists xt xp,
              Trade.exit_time tr = Some xt /\ Trade.exit_price tr = Some xp /\
              at_bar (skipn (Z.to_nat LONG_WINDOW) rows) xt xp) ts.
Proof.
  intros H.
  destruct (run_strategy_log _ _ _ H)
    as (first & lastrow & st & _ & Hl & Hrun & _ & Hinv & Hts).
  set (bars := skipn (Z.to_nat LONG_WINDOW) rows).
  assert (Hall : Forall (from_bars bars) (trades st)).
  { apply (run_loop_from_bars bars rows (init_state first) st);
      [apply init_state_log | constructor | | exact Hrun].
    intros k row Hk Hlt. simpl in Hlt.
    assert (Hge : (Z.to_nat LONG_WINDOW <= k)%nat) by lia.
    subst bars. apply (nth_error_In _ (k - Z.to_nat LONG_WINDOW)).
    rewrite nth_error_skipn.
    replace (Z.to_nat LONG_WINDOW + (k - Z.to_nat LONG_WINDOW))%nat with k by lia.
    exact Hk. }
  destruct Hts as [[_ ->] | (old & tr & E & ->)]; [constructor|].
  destruct Hinv as [[_ E'] | [_ (old' & tr' & E' & Hold & _)]];
    [rewrite E' in E; destruct old; discriminate E|].
  rewrite E in E'. apply app_inj_tail in E'. destruct E' as [<- <-].
  rewrite E in Hall. apply Forall_app in Hall. destruct Hall as [Hall Htr].
  inversion Htr as [|? ? [Hentry _] _]; subst.
  apply Forall_app. split.
  - apply Forall_forall. intros x Hx.
    pose proof (proj1 (Forall_forall _ _) Hall x Hx) as [Hen Hex].
    pose proof (proj1 (Forall_forall _ _) Hold x Hx) as Hc.
    split; [exact Hen|].
    destruct Hex as [[_ Hnone] | Hex]; [|exact Hex].
    unfold is_closed, Trade.is_open in Hc. rewrite Hnone in Hc. discriminate Hc.
  - constructor; [|constructor]. split; [exact Hentry|].
    exists (Datetime lastrow), (Close lastrow). repeat split.
    exists lastrow. split; [|split; reflexivity].
    destruct Hentry as (row & Hrow & _).
    apply (last_bar_in_suffix rows _ row lastrow Hrow Hl).
Qed.

Lemma last_cons_default {A : Type} (l : list A) (a d : A) :
  last (a :: l) d = last l a.
Proof.
  revert a d. induction l as [|b l IH]; intros a d; [reflexivity|].
  change (last (a :: b :: l) d) with (last (b :: l) d).
  rewrite (IH b d), (IH b a). reflexivity.
Qed.

Lemma run_loop_times (rows : list Row) (st st' : State) (T : Z) :
  log_inv (position st) (trades st) ->
  StronglySorted Z.le (T :: map Datetime rows) ->
  Forall (fun tr => (Trade.time tr <= T)%Z) (trades st) ->
  Forall (fun tr => exists xt, Trade.exit_time tr = Some xt /\
                               (Trade.time tr <= xt)%Z)
         (removelast (trades st)) ->
  run_loop' st rows = Ok st' ->
  Forall (fun tr => (Trade.time tr <= last (map Datetime rows) T)%Z)
         (trades st') /\
  Forall (fun tr => exists xt, Trade.exit_time tr = Some xt /\
                               (Trade.time tr <= xt)%Z)
         (removelast (trades st')).
Proof.
  revert st T.
  induction rows as [|row rows IH]; intros st T Hinv Hs Hle Hex H; simpl in H.
  - injection H as <-. split; assumption.
  - inv_bind H. rename a into st1.
    destruct (step_log _ _ _ _ _ Hinv Ha) as [Hinv1 _].
    simpl map in Hs |- *. rewrite last_cons_default.
    inversion Hs as [|? ? Hs' Hge]; subst.
    inversion Hge as [|? ? HT _]; subst.
    assert (Hle' : Forall (fun tr => (Trade.time tr <= Datetime row)%Z)
                          (trades st)).
    { apply Forall_forall. intros tr Hin.
      pose proof (proj1 (Forall_forall _ _) Hle tr Hin). simpl in *. lia. }
    apply (IH st1 (Datetime row) Hinv1 Hs'); [| |exact H].
    + destruct (step_cases _ _ _ Hinv Ha)
        as [[_ ->] | [_ [(_ & _ & _ & ->) | (old & tr & Ht & _ & _ & _ & ->)]]].
      * exact Hle'.
      * constructor; [simpl; lia | constructor].
      * rewrite Ht in Hle'. apply Forall_app in Hle'. destruct Hle' as [Hold Htr].
        inversion Htr; subst.
        apply Forall_app. split; [exact Hold|].
        constructor; [assumption|]. constructor; [simpl; lia | constructor].
    + destruct (step_cases _ _ _ Hinv Ha)
        as [[_ ->] | [_ [(_ & _ & _ & ->) | (old & tr & Ht & _ & _ & _ & ->)]]].
      * exact Hex.
      * constructor.
      * rewrite Ht in Hex, Hle'. rewrite removelast_last in Hex.
        apply Forall_app in Hle'. destruct Hle' as [_ Htr].
        inversion Htr as [|? ? Htr1 _]; subst.
        change [Trade.close tr (Datetime row) (Close row);
                Trade.init (Datetime row) (Close row) (position st1)]
          with ([Trade.close tr (Datetime row) (Close row)]
                ++ [Trade.init (Datetime row) (Close row) (position st1)]).
        rewrite app_assoc, removelast_last.
        apply Forall_app. split; [exact Hex|].
        constructor; [|constructor].
        exists (Datetime row). split; [reflexivity | exact Htr1].
Qed.

(** X7: when the timestamps of the bars never decrease, every trade of the
    log that [run_strategy] returns has an exit time, and it is not before
    its entry time. *)
Theorem exit_not_before_entry (rows : list Row) (curve : list (Z * Q))
    (ts : list Trade.t) :
  Sorted Z.le (map Datetime rows) ->
  run_strategy' rows = Ok (curve, ts) ->
  Forall (fun tr => exists xt, Trade.exit_time tr = Some xt /\
                               (Trade.time tr <= xt)%Z) ts.
Proof.
  intros Hsorted H.
  destruct (run_strategy_log _ _ _ H)
    as (first & lastrow & st & H0 & Hl & Hrun & _ & _ & Hts).
  apply Sorted_StronglySorted in Hsorted; [|exact Z.le_trans].
  destruct rows as [|row rows]; [rewrite index_nil in H0; discriminate H0|].
  rewrite index_0_cons in H0. injection H0 as ->.
  assert (Hs : StronglySorted Z.le (Datetime first :: map Datetime (first :: rows))).
  { constructor; [exact Hsorted|].
    inversion Hsorted; subst. constructor; [lia | assumption]. }
  destruct (run_loop_times (first :: rows) (init_state first) st (Datetime first))
    as [Hle Hex]; try assumption;
    [apply init_state_log | constructor | constructor |].
  destruct Hts as [[_ ->] | (old & tr & E & ->)]; [constructor|].
  rewrite E in Hle, Hex. rewrite removelast_last in Hex.
  apply Forall_app. split; [exact Hex|].
  constructor; [|constructor].
  exists (Datetime lastrow). split; [reflexivity|].
  apply Forall_app in Hle. destruct Hle as [_ Htr].
  inversion Htr as [|? ? Htr1 _]; subst.
  assert (Hlast : last (map Datetime (first :: rows)) (Datetime first)
                  = Datetime lastrow).
  { assert (Hne : first :: rows <> []) by discriminate.
    destruct (exists_last Hne) as (b & y & Eb).
    rewrite Eb in Hl |- *. rewrite index_last_snoc in Hl. injection Hl as <-.
    rewrite map_app. simpl. apply last_last. }
  rewrite Hlast in Htr1. simpl. exact Htr1.
Qed.

(** ** When the strategy returns *)

Lemma run_loop_ok (rows : list Row) (st : State) :
  SHORT_WINDOW <> 0%Z -> LONG_WINDOW <> 0%Z ->
  log_inv (position st) (trades st) ->
  (exists st', run_loop' st rows = Ok st') <->
  (rows = [] \/
   (~ last_close st == 0 /\
    Forall (fun row => ~ Close row == 0) (removelast rows))).
Proof.
  intros HS HL. revert st.
  induction rows as [|row rows IH]; intros st Hinv.
  - simpl. split; [intros _; left; reflexivity | intros _; eexists; reflexivity].
  - split.
    + intros (st' & H). right. simpl in H. inv_bind H. rename a into st1.
      destruct (step_log _ _ _ _ _ Hinv Ha) as [Hinv1 _].
      destruct (step_inv _ _ _ _ _ Ha) as (_ & Hlc & _ & _ & _ & Hlast & _).
      split; [exact Hlc|].
      assert (Hex : exists st', run_loop' st1 rows = Ok st')
        by (eexists; exact H).
      apply (IH st1 Hinv1) in Hex.
      destruct Hex as [-> | [Hrow Hrest]]; [constructor|].
      destruct rows as [|row' rows']; [constructor|].
      change (removelast (row :: row' :: rows'))
        with (row :: removelast (row' :: rows')).
      constructor; [rewrite <- Hlast; exact Hrow | exact Hrest].
    + intros [H | [Hlc Hrows]]; [discriminate H|].
      destruct (step_total _ _ st row HS HL Hinv Hlc) as (st1 & Hst1).
      simpl. rewrite Hst1. cbn [bind].
      destruct (step_log _ _ _ _ _ Hinv Hst1) as [Hinv1 _].
      destruct (step_inv _ _ _ _ _ Hst1) as (_ & _ & _ & _ & _ & Hlast & _).
      apply (IH st1 Hinv1).
      destruct rows as [|row' rows']; [left; reflexivity|].
      right.
      change (removelast (row :: row' :: rows'))
        with (row :: removelast (row' :: rows')) in Hrows.
      inversion Hrows; subst. rewrite Hlast. split; assumption.
Qed.

(** X8: with non-zero windows, [run_strategy] raises IndexError on an empty
    sequence, and on a non-empty one it returns exactly when the first close
    and every close but the last are non-zero. *)
Theorem run_strategy_returns_iff :
  SHORT_WINDOW <> 0%Z -> LONG_WINDOW <> 0%Z ->
  run_strategy' [] = Raise IndexError /\
  forall (first : Row) (rest : list Row),
    (exists curve ts, run_strategy' (first :: rest) = Ok (curve, ts)) <->
    (~ Close first == 0 /\
     Forall (fun row => ~ Close row == 0) (removelast (first :: rest))).
Proof.
  intros HS HL. split; [reflexivity|].
  intros first rest.
  pose proof (run_loop_ok (first :: rest) (init_state first) HS HL
                (init_state_log first)) as Hloop.
  simpl last_close in Hloop. split.
  - intros (curve & ts & H).
    destruct (run_strategy_log _ _ _ H)
      as (first' & _ & st & H0 & _ & Hrun & _).
    rewrite index_0_cons in H0. injection H0 as <-.
    destruct (proj1 Hloop (ex_intro _ st Hrun)) as [E | Hc];
      [discriminate E | exact Hc].
  - intros Hc. destruct (proj2 Hloop (or_intror Hc)) as (st & Hrun).
    pose proof (run_loop_log _ _ _ _ _ (init_state_log first) Hrun) as Hinv.
    destruct (index_last_nonempty (first :: rest)) as (lastrow & Hl);
      [discriminate|].
    destruct (close_open_trade_spec _ _ _ _ Hinv Hl) as (ts & Hts & _).
    exists (eq_curve st), ts. unfold run_strategy.
    rewrite index_0_cons. cbn [bind]. rewrite Hrun. cbn [bind]. rewrite Hts.
    reflexivity.
Qed.

(** ** trade_frequency on the returned log *)

Lemma run_strategy_entry_times (rows : list Row) (curve : list (Z * Q))
    (ts : list Trade.t) (lastrow : Row) :
  Sorted Z.le (map Datetime rows) ->
  run_strategy' rows = Ok (curve, ts) ->
  index rows (-1) = Ok lastrow ->
  Forall (fun tr => (Trade.time tr <= Datetime lastrow)%Z) ts.
Proof.
  intros Hsorted H Hl'.
  destruct (run_strategy_log _ _ _ H)
    as (first & lastrow' & st & H0 & Hl & Hrun & _ & _ & Hts).
  rewrite Hl' in Hl. injection Hl as <-.
  apply Sorted_StronglySorted in Hsorted; [|exact Z.le_trans].
  destruct rows as [|row rows]; [rewrite index_nil in H0; discriminate H0|].
  rewrite index_0_cons in H0. injection H0 as ->.
  assert (Hs : StronglySorted Z.le (Datetime first :: map Datetime (first :: rows))).
  { constructor; [exact Hsorted|].
    inversion Hsorted; subst. constructor; [lia | assumption]. }
  destruct (run_loop_times (first :: rows) (init_state first) st (Datetime first))
    as [Hle _]; try assumption;
    [apply init_state_log | constructor | constructor |].
  assert (Hlast : last (map Datetime (first :: rows)) (Datetime first)
                  = Datetime lastrow).
  { assert (Hne : first :: rows <> []) by discriminate.
    destruct (exists_last Hne) as (b & y & Eb).
    rewrite Eb in Hl' |- *. rewrite index_last_snoc in Hl'. injection Hl' as <-.
    rewrite map_app. simpl. apply last_last. }
  rewrite Hlast in Hle.
  destruct Hts as [[_ ->] | (old & tr & E & ->)]; [constructor|].
  rewrite E in Hle. apply Forall_app in Hle. destruct Hle as [Hold Htr].
  apply Forall_app. split; [exact Hold|].
  inversion Htr; subst. constructor; [assumption | constructor].
Qed.

(** X9: [trade_frequency] never fails on the log that [run_strategy]
    returns, and when the timestamps of the bars never decrease its value is
    not negative. *)
Theorem trade_frequency_of_returned_log (rows : list Row)
    (curve : list (Z * Q)) (ts : list Trade.t) :
  run_strategy' rows = Ok (curve, ts) ->
  exists f,
    trade_frequency ts = Ok f /\
    (Sorted Z.le (map Datetime rows) -> 0 <= f).
Proof.
  intros H.
  destruct (run_strategy_log _ _ _ H)
    as (first & lastrow & st & _ & Hl & _ & _ & _ & Hts).
  destruct Hts as [[_ ->] | (old & tr & _ & E)].
  - exists 0. split; [reflexivity | intros _; lra].
  - set (trc := Trade.close tr (Datetime lastrow) (Close lastrow)) in E.
    assert (Hne : ts <> []) by (rewrite E; destruct old; discriminate).
    destruct ts as [|t0 ts']; [contradiction|].
    set (days := timedelta_days (Datetime lastrow - Trade.time t0)).
    set (months := inject_Z days / 30).
    set (n := inject_Z (Z.of_nat (length (t0 :: ts')))).
    assert (Hfreq : trade_frequency (t0 :: ts') =
                    if negb (Qeq_bool months 0) then fdiv n months else Ok n).
    { unfold trade_frequency. rewrite E at 1. rewrite index_last_snoc.
      cbn [bind]. rewrite index_0_cons. cbn [bind]. subst trc.
      cbn [Trade.exit_time Trade.close]. fold days.
      rewrite fdiv_Ok by (intros C; discriminate C). reflexivity. }
    assert (Hn : 0 <= n).
    { subst n. unfold Qle. simpl Qnum. simpl Qden. lia. }
    destruct (Qeq_bool months 0) eqn:Em.
    + exists n. split; [rewrite Hfreq; reflexivity | intros _; exact Hn].
    + assert (Hm : ~ months == 0).
      { intros C. apply Qeq_bool_iff in C. congruence. }
      exists (n / months). split; [rewrite Hfreq; simpl; apply fdiv_Ok; exact Hm|].
      intros Hsorted.
      pose proof (run_strategy_entry_times _ _ _ _ Hsorted H Hl) as Hle.
      inversion Hle as [|? ? Ht0 _]; subst.
      assert (Hd : (0 <= days)%Z).
      { subst days. unfold timedelta_days. apply Z.div_pos; lia. }
      assert (Hm0 : 0 <= months).
      { subst months. apply Qle_shift_div_l; [reflexivity|].
        unfold Qle. simpl. lia. }
      assert (Hmpos : 0 < months) by (apply Qle_lteq in Hm0; destruct Hm0 as [?|C]; [assumption | symmetry in C; contradiction]).
      apply Qle_shift_div_l; [exact Hmpos | lra].
Qed.

End StrategyLog.

(** ** Moving averages *)

Lemma slice_suffix {A : Type} (l : list A) (w : Z) :
  (0 < w)%Z ->
  slice l (Some (- w)%Z) None = skipn (length l - Z.to_nat w) l.
Proof.
  intros Hw. unfold slice, clamp.
  assert (E : (- w <? 0)%Z = true) by (apply Z.ltb_lt; lia).
  rewrite E.
  set (n := Z.of_nat (length l)).
  replace (Z.to_nat (Z.max 0 (Z.min n (- w + n))))
    with (length l - Z.to_nat w)%nat by (subst n; lia).
  apply firstn_all2. rewrite length_skipn. subst n. lia.
Qed.

Lemma slice_previous {A : Type} (l : list A) (x : A) (w : Z) :
  (0 < w)%Z ->
  slice (l ++ [x]) (Some (- w - 1)%Z) (Some (-1)%Z)
  = slice l (Some (- w)%Z) None.
Proof.
  intros Hw. rewrite (slice_suffix l w Hw). unfold slice, clamp.
  assert (E : (- w - 1 <? 0)%Z = true) by (apply Z.ltb_lt; lia).
  rewrite E. change (-1 <? 0)%Z with true. cbv iota.
  rewrite length_app. simpl length.
  set (k := (length l - Z.to_nat w)%nat).
  replace (Z.to_nat (Z.max 0 (Z.min (Z.of_nat (length l + 1))
                                    (- w - 1 + Z.of_nat (length l + 1)))))
    with k by (subst k; lia).
  replace (Z.to_nat (Z.max 0 (Z.min (Z.of_nat (length l + 1))
                                    (-1 + Z.of_nat (length l + 1)))
                     - Z.max 0 (Z.min (Z.of_nat (length l + 1))
                                      (- w - 1 + Z.of_nat (length l + 1)))))
    with (length l - k)%nat by (subst k; lia).
  rewrite skipn_app.
  replace (k - length l)%nat with O by (subst k; lia). simpl skipn.
  rewrite firstn_app, length_skipn.
  replace (length l - k - (length l - k))%nat with O by lia.
  simpl firstn. rewrite app_nil_r.
  apply firstn_all2. rewrite length_skipn. lia.
Qed.

(** X10: for a window that is not negative, the "previous" moving average
    computed at a bar is the moving average of the history without that
    bar's close: what the preceding bar computed as its current average. *)
Theorem prev_ma_is_ma_of_previous_bar (window : Z) (closes : list Q)
    (close : Q) :
  (0 <= window)%Z ->
  prev_short_ma window (closes ++ [close]) = short_ma window closes /\
  prev_long_ma window (closes ++ [close]) = long_ma window closes.
Proof.
  intros Hw.
  unfold prev_short_ma, prev_long_ma, short_ma, long_ma.
  destruct (Z.eq_dec window 0) as [-> | Hne].
  - split; reflexivity.
  - rewrite slice_previous by lia. split; reflexivity.
Qed.

Lemma prev_ma_is_ma_of_previous_bar_witness :
  prev_short_ma 2 ([10; 11; 12] ++ [13]) = short_ma 2 [10; 11; 12] /\
  prev_long_ma 2 ([10; 11; 12] ++ [13]) = long_ma 2 [10; 11; 12].
Proof.
  apply (prev_ma_is_ma_of_previous_bar 2 [10; 11; 12] 13). lia.
Defined.

(** X11: for a positive window the moving average is the sum of the last
    [window] closes over [window]; with fewer closes than the window it is
    the sum of all of them, still over [window]. *)
Theorem ma_is_sum_of_last_closes (window : Z) (closes : list Q) :
  (0 < window)%Z ->
  short_ma window closes
  = Ok (sum (skipn (length closes - Z.to_nat window) closes)
        / inject_Z window) /\
  long_ma window closes
  = Ok (sum (skipn (length closes - Z.to_nat window) closes)
        / inject_Z window).
Proof.
  intros Hw. unfold short_ma, long_ma.
  rewrite slice_suffix by exact Hw.
  rewrite fdiv_Ok by (rewrite inject_Z_zero; lia).
  split; reflexivity.
Qed.

Lemma ma_is_sum_of_last_closes_witness :
  short_ma 2 [10; 11; 12] = Ok (sum [11; 12] / inject_Z 2) /\
  short_ma 5 [10; 11; 12] = Ok (sum [10; 11; 12] / inject_Z 5).
Proof.
  split.
  - apply (proj1 (ma_is_sum_of_last_closes 2 [10; 11; 12] ltac:(lia))).
  - apply (proj1 (ma_is_sum_of_last_closes 5 [10; 11; 12] ltac:(lia))).
Defined.

(** ** Constant prices *)

Lemma skipn_repeat {A : Type} (a : A) (k m : nat) :
  skipn k (repeat a (k + m)) = repeat a m.
Proof. induction k as [|k IH]; [reflexivity | exact IH]. Qed.

Lemma fold_plus_repeat (c a : Q) (m : nat) :
  fold_left Qplus (repeat c m) a == a + inject_Z (Z.of_nat m) * c.
Proof.
  revert a. induction m as [|m IH]; intros a.
  - simpl. ring.
  - cbn [repeat fold_left]. rewrite IH.
    rewrite Nat2Z.inj_succ. unfold Z.succ. rewrite inject_Z_plus. ring.
Qed.

(** The moving average of a constant history that is at least as long as
    the window. *)
Lemma ma_repeat (window : Z) (c : Q) (n : nat) :
  (0 < window)%Z -> (Z.to_nat window <= n)%nat ->
  exists m,
    short_ma window (repeat c n) = Ok m /\
    long_ma window (repeat c n) = Ok m /\
    m = sum (repeat c (Z.to_nat window)) / inject_Z window /\
    m == c.
Proof.
  intros Hw Hn.
  exists (sum (repeat c (Z.to_nat window)) / inject_Z window).
  assert (Hs : skipn (length (repeat c n) - Z.to_nat window) (repeat c n)
               = repeat c (Z.to_nat window)).
  { rewrite repeat_length.
    replace n with ((n - Z.to_nat window) + Z.to_nat window)%nat at 2 by lia.
    apply skipn_repeat. }
  unfold short_ma, long_ma.
  rewrite slice_suffix by exact Hw. rewrite Hs.
  rewrite fdiv_Ok by (rewrite inject_Z_zero; lia).
  repeat split.
  unfold sum. rewrite fold_plus_repeat, Z2Nat.id by lia.
  field. rewrite inject_Z_zero. lia.
Qed.

Section ConstantPrices.

Variables SHORT_WINDOW LONG_WINDOW : Z.
Hypothesis windows : (0 < SHORT_WINDOW <= LONG_WINDOW)%Z.

Variable c : Q.
Hypothesis c_nonzero : ~ c == 0.

(** While flat, a bar that keeps the history constant sees no crossover. *)
Lemma signal_block_constant (st : State) (row : Row) (n : nat) :
  closes st = repeat c n -> Close row = c -> position st = 0%Z ->
  signal_block SHORT_WINDOW LONG_WINDOW st row (closes st ++ [Close row])
  = Ok (position st, trades st).
Proof.
  intros Hcl Hrow Hp.
  unfold signal_block, eligible.
  rewrite Hcl, Hrow, length_app, repeat_length. simpl length.
  destruct (Z.of_nat (n + 1) >? LONG_WINDOW)%Z eqn:E; [|reflexivity].
  rewrite Z.gtb_ltb, Z.ltb_lt in E.
  assert (Hps : prev_short_ma SHORT_WINDOW (repeat c n ++ [c])
                = short_ma SHORT_WINDOW (repeat c n)).
  { unfold prev_short_ma, short_ma. rewrite slice_previous by lia.
    reflexivity. }
  assert (Hpl : prev_long_ma LONG_WINDOW (repeat c n ++ [c])
                = long_ma LONG_WINDOW (repeat c n)).
  { unfold prev_long_ma, long_ma. rewrite slice_previous by lia.
    reflexivity. }
  unfold crossover. rewrite Hps, Hpl.
  rewrite <- repeat_cons. change (c :: repeat c n) with (repeat c (S n)).
  destruct (ma_repeat SHORT_WINDOW c (S n)) as (sm & Hsm & _ & _ & Hsmc);
    [lia | lia |].
  destruct (ma_repeat LONG_WINDOW c (S n)) as (lm & _ & Hlm & _ & Hlmc);
    [lia | lia |].
  destruct (ma_repeat SHORT_WINDOW c n) as (psm & Hpsm & _ & _ & Hpsmc);
    [lia | lia |].
  destruct (ma_repeat LONG_WINDOW c n) as (plm & _ & Hplm & _ & Hplmc);
    [lia | lia |].
  rewrite Hsm, Hlm, Hpsm, Hplm. cbn [bind].
  replace (Qlt_bool lm sm) with false
    by (symmetry; apply Qlt_bool_false; rewrite Hsmc, Hlmc; lra).
  replace (Qlt_bool sm lm) with false
    by (symmetry; apply Qlt_bool_false; rewrite Hsmc, Hlmc; lra).
  rewrite !andb_false_r. unfold transition. rewrite Hp. reflexivity.
Qed.

Lemma run_loop_constant (rows : list Row) (st : State) (n : nat) :
  closes st = repeat c n ->
  position st = 0%Z -> trades st = [] -> equity st == 1 ->
  Forall (fun p => snd p == 1) (eq_curve st) ->
  last_close st = c ->
  Forall (fun row => Close row = c) rows ->
  exists st',
    run_loop SHORT_WINDOW LONG_WINDOW st rows = Ok st' /\
    trades st' = [] /\
    Forall (fun p => snd p == 1) (eq_curve st').
Proof.
  revert st n.
  induction rows as [|row rows IH]; intros st n Hcl Hp Ht He Hc Hlc Hrows.
  - exists st. repeat split; assumption.
  - pose proof (Forall_inv Hrows) as Hrow. simpl in Hrow.
    pose proof (Forall_inv_tail Hrows) as Hrows'.
    pose proof (signal_block_constant st row n Hcl Hrow Hp) as Hsig.
    destruct (step_intro SHORT_WINDOW LONG_WINDOW st row _ _ Hsig)
      as (st1 & Hstep & Hp1 & Ht1); [rewrite Hlc; exact c_nonzero|].
    destruct (step_inv _ _ _ _ _ Hstep)
      as (_ & _ & Hcl1 & Hret & Heq & Hlast & Hcurve).
    assert (He1 : equity st1 == 1).
    { rewrite Heq, Hret, Hp1, Hp, He. unfold inject_Z. ring. }
    destruct (IH st1 (S n)) as (st' & Hrun & Ht' & Hc'); try assumption.
    + rewrite Hcl1, Hcl, Hrow, <- repeat_cons. reflexivity.
    + congruence.
    + congruence.
    + rewrite Hcurve. apply Forall_app. split; [exact Hc|].
      constructor; [exact He1 | constructor].
    + congruence.
    + exists st'. simpl. rewrite Hstep. cbn [bind].
      repeat split; assumption.
Qed.

(** X12: with windows [0 < SHORT_WINDOW <= LONG_WINDOW], on a non-empty
    sequence of bars that all close at the same non-zero price
    [run_strategy] makes no trade and the equity curve is 1 at every bar,
    however long the sequence is. *)
Theorem constant_prices_make_no_trade (rows : list Row) :
  rows <> [] ->
  Forall (fun row => Close row = c) rows ->
  exists curve,
    run_strategy SHORT_WINDOW LONG_WINDOW rows = Ok (curve, []) /\
    length curve = length rows /\
    Forall (fun p => snd p == 1) curve.
Proof.
  intros Hne Hrows.
  destruct rows as [|first rows]; [contradiction|].
  pose proof (Forall_inv Hrows) as Hfirst. simpl in Hfirst.
  destruct (run_loop_constant (first :: rows) (init_state first) 0)
    as (st & Hrun & Ht & Hc); try reflexivity; try assumption; [constructor|].
  exists (eq_curve st). split; [|split; [|exact Hc]].
  - unfold run_strategy. rewrite index_0_cons. cbn [bind].
    rewrite Hrun. cbn [bind]. rewrite Ht. reflexivity.
  - destruct (run_loop_states _ _ _ _ _ Hrun) as (sts & Hsts).
    destruct (run_states_loop _ _ _ _ _ Hsts) as (st' & Hrun' & _ & Hfst & _).
    rewrite Hrun in Hrun'. injection Hrun' as <-.
    simpl in Hfst.
    rewrite <- (length_map fst), Hfst. simpl. rewrite length_map. reflexivity.
Qed.

End ConstantPrices.

Lemma constant_prices_make_no_trade_witness :
  exists curve,
    run_strategy 2 3 (map (fun i => bar (Z.of_nat i) 7) (seq 0 6))
    = Ok (curve, []) /\
    Forall (fun p => snd p == 1) curve.
Proof.
  destruct (constant_prices_make_no_trade 2 3 ltac:(lia) 7
              ltac:(intros H; discriminate H)
              (map (fun i => bar (Z.of_nat i) 7) (seq 0 6)))
    as (curve & Hrun & _ & Hc).
  - simpl. discriminate.
  - simpl. repeat constructor.
  - exists curve. split; assumption.
Defined.

(** ** Drawdown of a curve that never falls *)

Lemma dd_loop_ge (values : list Q) (peak md d : Q) :
  dd_loop peak md values = Ok d -> md <= d.
Proof.
  revert peak md.
  induction values as [|e values IH]; intros peak md H; simpl in H.
  - injection H as <-. lra.
  - inv_bind H. apply IH in H.
    destruct (Qlt_bool md a) eqn:E; [|exact H].
    apply Qlt_bool_iff in E. lra.
Qed.

Lemma HdRel_Qle_eq (x y : Q) (l : list Q) :
  x == y -> HdRel Qle x l -> HdRel Qle y l.
Proof.
  intros E H. destruct H as [|b l H]; constructor. rewrite <- E. exact H.
Qed.

Lemma dd_loop_zero_iff (values : list Q) (peak : Q) :
  0 < peak ->
  (exists d, dd_loop peak 0 values = Ok d /\ d == 0) <->
  Sorted Qle (peak :: values).
Proof.
  revert peak.
  induction values as [|e values IH]; intros peak Hp.
  - split.
    + intros _. repeat constructor.
    + intros _. exists 0. split; reflexivity.
  - cbn [dd_loop].
    set (p' := if Qlt_bool peak e then e else peak).
    assert (Hp' : 0 < p' /\ e <= p' /\ peak <= p' /\ (peak <= e -> p' == e)).
    { subst p'. destruct (Qlt_bool peak e) eqn:E.
      - apply Qlt_bool_iff in E. repeat split; try lra.
      - apply Qlt_bool_false in E. repeat split; try lra. }
    destruct Hp' as (Hp'0 & Hep' & Hpp' & Hpe).
    rewrite fdiv_Ok by lra. cbn [bind].
    set (dd := (p' - e) / p').
    assert (Hdd0 : 0 <= dd) by (apply Qle_shift_div_l; [exact Hp'0 | lra]).
    split.
    + intros (d & H & Hd).
      pose proof (dd_loop_ge _ _ _ _ H) as Hge.
      destruct (Qlt_bool 0 dd) eqn:E.
      * apply Qlt_bool_iff in E. lra.
      * apply Qlt_bool_false in E.
        assert (Hz : dd == 0) by lra.
        assert (Hpe' : p' == e).
        { assert (Hm : p' - e == dd * p') by (subst dd; field; lra).
          rewrite Hz in Hm. lra. }
        assert (Hs : Sorted Qle (p' :: values))
          by (apply (IH p' Hp'0); exists d; split; assumption).
        inversion Hs as [|? ? Hs' Hhd]; subst.
        constructor; [constructor; [exact Hs'|]|].
        -- apply (HdRel_Qle_eq p' e); assumption.
        -- constructor. lra.
    + intros Hs.
      inversion Hs as [|? ? Hs' Hhd]; subst.
      inversion Hhd as [|? ? Hpe0]; subst.
      inversion Hs' as [|? ? Hs'' Hhd']; subst.
      specialize (Hpe Hpe0).
      assert (Hz : dd == 0) by (subst dd; rewrite Hpe; field; lra).
      replace (Qlt_bool 0 dd) with false
        by (symmetry; apply Qlt_bool_false; lra).
      apply (IH p' Hp'0). constructor; [exact Hs''|].
      apply (HdRel_Qle_eq e p'); [symmetry; exact Hpe | exact Hhd'].
Qed.

(** X13: on a curve whose first value is positive, the max drawdown is
    returned and is 0 exactly when the equity values never decrease from one
    point to the next. *)
Theorem max_drawdown_zero_iff_never_falls (eq_curve : list (Z * Q))
    (first : Z * Q) :
  index eq_curve 0 = Ok first ->
  0 < snd first ->
  (exists d, max_drawdown eq_curve = Ok d /\ d == 0) <->
  Sorted Qle (map snd eq_curve).
Proof.
  intros H0 Hpos.
  destruct eq_curve as [|p curve]; [rewrite index_nil in H0; discriminate H0|].
  rewrite index_0_cons in H0. injection H0 as ->.
  unfold max_drawdown. rewrite index_0_cons. cbn [bind].
  rewrite (dd_loop_zero_iff _ _ Hpos). simpl map. split.
  - intros Hs. inversion Hs; assumption.
  - intros Hs. constructor; [exact Hs|]. constructor. lra.
Qed.

Lemma max_drawdown_zero_iff_never_falls_witness :
  exists d,
    max_drawdown [(0%Z, 1); (900%Z, 11 # 10); (1800%Z, 11 # 10)] = Ok d /\
    d == 0.
Proof.
  apply (proj2 (max_drawdown_zero_iff_never_falls
                  [(0%Z, 1); (900%Z, 11 # 10); (1800%Z, 11 # 10)]
                  (0%Z, 1) eq_refl ltac:(reflexivity))).
  simpl. repeat constructor; intros H; discriminate H.
Defined.

(** ** Curves too short for calc_metrics *)

(** X15: [calc_metrics] returns on no curve of fewer than three points: it
    raises IndexError on the empty curve, ZeroDivisionError on a curve of
    one point (no elapsed days), and on a curve of two points either
    ZeroDivisionError (no elapsed days, a zero start value, or the single
    return sample) or the exception that a [**] raises before. *)
Theorem calc_metrics_needs_three_points (fpow : number -> Q -> result number)
    (fsqrt : Q -> Q) (eq_curve : list (Z * Q)) :
  (length eq_curve < 3)%nat ->
  exists e,
    calc_metrics fpow fsqrt eq_curve = Raise e /\
    (eq_curve = [] -> e = IndexError) /\
    (length eq_curve = 1%nat -> e = ZeroDivisionError) /\
    (eq_curve <> [] ->
     e = ZeroDivisionError \/ exists a y, fpow a y = Raise e).
Proof.
  intros Hlen.
  destruct eq_curve as [|[t0 e0] [|[t1 e1] [|p curve]]];
    [| | |simpl in Hlen; lia].
  - exists IndexError. split; [reflexivity|].
    split; [reflexivity|]. split; [discriminate|]. intros C. contradiction.
  - exists ZeroDivisionError. split.
    + unfold calc_metrics, annual_return.
      change (index [(t0, e0)] 0) with (Ok (t0, e0)).
      change (index [(t0, e0)] (-1)) with (Ok (t0, e0)).
      cbn [bind fst snd]. rewrite Z.sub_diag.
      change (fdiv (inject_Z (timedelta_days 0)) 365) with (Ok (0 / 365)).
      cbn [bind]. unfold fdiv at 1.
      destruct (Qeq_bool e0 0); reflexivity.
    + split; [discriminate|]. split; [reflexivity|]. left. reflexivity.
  - assert (Hann : annual_return fpow [(t0, e0); (t1, e1)] =
                   (years <- fdiv (inject_Z (timedelta_days (t1 - t0))) 365 ;;
                    base <- fdiv e1 e0 ;;
                    e <- fdiv 1 years ;;
                    p <- fpow (Float base) e ;;
                    Ok (number_sub p 1))) by reflexivity.
    assert (Hsh : ~ e0 == 0 ->
                  sharpe fpow fsqrt [(t0, e0); (t1, e1)] =
                  (_ <- fpow (Float (e1 / e0 - 1
                                     - sum [e1 / e0 - 1] / inject_Z 1)) 2 ;;
                   Raise ZeroDivisionError)).
    { intros He0. unfold sharpe, returns. simpl map. cbn [step_returns].
      rewrite (fdiv_Ok _ _ He0). cbn [bind]. apply sharpe_of_single. }
    unfold calc_metrics. rewrite Hann.
    destruct (fdiv (inject_Z (timedelta_days (t1 - t0))) 365)
      as [years|x] eqn:Ey; cbn [bind];
      [|apply fdiv_Raise in Ey; subst x; exists ZeroDivisionError;
        repeat split; try discriminate; left; reflexivity].
    destruct (fdiv e1 e0) as [base|x] eqn:Eb; cbn [bind];
      [|apply fdiv_Raise in Eb; subst x; exists ZeroDivisionError;
        repeat split; try discriminate; left; reflexivity].
    destruct (fdiv 1 years) as [ex|x] eqn:Ee; cbn [bind];
      [|apply fdiv_Raise in Ee; subst x; exists ZeroDivisionError;
        repeat split; try discriminate; left; reflexivity].
    destruct (fpow (Float base) ex) as [pw|x] eqn:Ep; cbn [bind];
      [|exists x; repeat split; try discriminate; right; eauto].
    apply fdiv_inv in Eb. destruct Eb as [He0 _].
    rewrite (Hsh He0).
    destruct (fpow (Float (e1 / e0 - 1 - sum [e1 / e0 - 1] / inject_Z 1)) 2)
      as [sq|x] eqn:Es; cbn [bind].
    + exists ZeroDivisionError. repeat split; try discriminate.
      left. reflexivity.
    + exists x. repeat split; try discriminate. right. eauto.
Qed.

Lemma calc_metrics_needs_three_points_witness :
  calc_metrics ipow (fun x => x) [(0%Z, 1); (31536000%Z, 11 # 10)]
  = Raise ZeroDivisionError.
Proof.
  destruct (calc_metrics_needs_three_points ipow (fun x => x)
              [(0%Z, 1); (31536000%Z, 11 # 10)]) as (e & H & _).
  - simpl. lia.
  - rewrite H. vm_compute in H. injection H as <-. reflexivity.
Defined.

(** ** monthly_win_rate *)

Section MonthlyWinRateFacts.

Variable year_month : Z -> Z * Z.

Lemma record_point_nonempty (by_month : list ((Z * Z) * (Q * Q)))
    (key : Z * Z) (eq : Q) :
  record_point by_month key eq <> [].
Proof.
  destruct by_month as [|[k [s e]] rest]; simpl; [discriminate|].
  destruct (key_eqb k key); discriminate.
Qed.

Lemma group_nonempty (eq_curve : list (Z * Q))
    (by_month : list ((Z * Z) * (Q * Q))) :
  by_month <> [] ->
  fold_left (fun d p => record_point d (year_month (fst p)) (snd p))
            eq_curve by_month <> [].
Proof.
  revert by_month.
  induction eq_curve as [|p curve IH]; intros by_month H; simpl; [exact H|].
  apply IH. apply record_point_nonempty.
Qed.

Lemma count_wins_bounds (by_month : list ((Z * Z) * (Q * Q))) (wins : Z) :
  let r := fold_left (fun wins kv =>
                        if Qlt_bool (fst (snd kv)) (snd (snd kv))
                        then (wins + 1)%Z else wins)
                     by_month wins in
  (wins <= r <= wins + Z.of_nat (length by_month))%Z.
Proof.
  revert wins.
  induction by_month as [|kv rest IH]; intros wins; simpl; [lia|].
  destruct (Qlt_bool (fst (snd kv)) (snd (snd kv)));
    [specialize (IH (wins + 1)%Z) | specialize (IH wins)];
    simpl in IH; lia.
Qed.

(** X17: [monthly_win_rate] raises ZeroDivisionError on an empty curve, and
    on any other curve it returns a value between 0 and 1. *)
Theorem monthly_win_rate_range :
  monthly_win_rate year_month [] = Raise ZeroDivisionError /\
  forall eq_curve : list (Z * Q),
    eq_curve <> [] ->
    exists r, monthly_win_rate year_month eq_curve = Ok r /\ 0 <= r /\ r <= 1.
Proof.
  split; [reflexivity|].
  intros eq_curve Hne. unfold monthly_win_rate.
  set (by_month := group_by_month year_month eq_curve).
  assert (Hlen : (0 < length by_month)%nat).
  { assert (H : by_month <> []).
    { subst by_month. unfold group_by_month.
      destruct eq_curve as [|p curve]; [contradiction|]. simpl.
      apply group_nonempty. discriminate. }
    destruct by_month; [contradiction | simpl; lia]. }
  pose proof (count_wins_bounds by_month 0) as Hw. simpl in Hw.
  fold (count_wins by_month) in Hw.
  assert (Hn : 0 < inject_Z (Z.of_nat (length by_month))).
  { unfold Qlt. simpl. lia. }
  rewrite fdiv_Ok by lra.
  eexists. split; [reflexivity|]. split.
  - apply Qle_shift_div_l; [exact Hn|].
    unfold Qle. simpl. lia.
  - apply Qle_shift_div_r; [exact Hn|].
    rewrite Qmult_1_l, <- Zle_Qle. lia.
Qed.

Lemma fold_same_month (rest : list (Z * Q)) (key : Z * Z) (start end_ : Q)
    (t0 : Z) :
  Forall (fun p => year_month (fst p) = key) rest ->
  fold_left (fun d p => record_point d (year_month (fst p)) (snd p))
            rest [(key, (start, end_))]
  = [(key, (start, snd (last rest (t0, end_))))].
Proof.
  revert end_.
  induction rest as [|p rest IH]; intros end_ H; [reflexivity|].
  pose proof (Forall_inv H) as Hp. simpl in Hp.
  pose proof (Forall_inv_tail H) as Hrest.
  cbn [fold_left record_point]. rewrite Hp.
  assert (E : key_eqb key key = true).
  { unfold key_eqb. rewrite !Z.eqb_refl. reflexivity. }
  rewrite E. rewrite (IH (snd p) Hrest).
  rewrite last_cons_default.
  destruct rest as [|q rest]; [reflexivity|].
  rewrite !last_cons_default. reflexivity.
Qed.

(** X18: on a curve whose points all fall in one month, the monthly win
    rate is 1 when the last equity value exceeds the first and 0
    otherwise, whatever the values in between. *)
Theorem monthly_win_rate_single_month (t0 : Z) (e0 : Q)
    (rest : list (Z * Q)) :
  Forall (fun p => year_month (fst p) = year_month t0) rest ->
  monthly_win_rate year_month ((t0, e0) :: rest)
  = Ok (inject_Z (if Qlt_bool e0 (snd (last rest (t0, e0))) then 1 else 0)
        / inject_Z 1).
Proof.
  intros H. unfold monthly_win_rate, group_by_month.
  cbn [fold_left record_point fst snd].
  rewrite (fold_same_month rest _ e0 e0 t0 H).
  unfold count_wins. cbn [fold_left fst snd length].
  rewrite fdiv_Ok by (intros C; discriminate C).
  destruct (Qlt_bool e0 (snd (last rest (t0, e0)))); reflexivity.
Qed.

End MonthlyWinRateFacts.

Lemma monthly_win_rate_range_witness :
  exists r,
    monthly_win_rate thirty_day_months
      [(0%Z, 1); (900%Z, 11 # 10); (2592000%Z, 11 # 10); (2592900%Z, 1)]
    = Ok r /\ 0 <= r /\ r <= 1.
Proof.
  apply (proj2 (monthly_win_rate_range thirty_day_months)
           [(0%Z, 1); (900%Z, 11 # 10); (2592000%Z, 11 # 10); (2592900%Z, 1)]).
  discriminate.
Defined.

Lemma monthly_win_rate_single_month_witness :
  monthly_win_rate thirty_day_months [(0%Z, 1); (900%Z, 9 # 10); (1800%Z, 11 # 10)]
  = Ok (inject_Z 1 / inject_Z 1).
Proof.
  apply (monthly_win_rate_single_month thirty_day_months 0 1
           [(900%Z, 9 # 10); (1800%Z, 11 # 10)]).
  repeat constructor.
Defined.

(** The two-month example: one month that ends higher than it starts and
    one that ends lower give a win rate of 1/2. *)
Example monthly_win_rate_two_months :
  monthly_win_rate thirty_day_months
    [(0%Z, 1); (900%Z, 11 # 10); (2592000%Z, 11 # 10); (2592900%Z, 1)]
  = Ok (inject_Z 1 / inject_Z 2).
Proof. reflexivity. Qed.

(** ** Runs with flips *)

Lemma zigzag_run :
  {r : list (Z * Q) * list Trade.t | run_strategy 1 3 zigzag_rows = Ok r}.
Proof. eexists. vm_compute. reflexivity. Defined.

Lemma zigzag_sorted : Sorted Z.le (map Datetime zigzag_rows).
Proof. simpl. repeat constructor; lia. Defined.

(** The log of the zigzag run: three trades, each closed where the next
    one is entered. *)
Example zigzag_trades :
  map (fun tr => (Trade.time tr, Trade.position tr, Trade.exit_time tr))
      (snd (proj1_sig zigzag_run))
  = [(4%Z, (-1)%Z, Some 5%Z); (5%Z, 1%Z, Some 6%Z); (6%Z, (-1)%Z, Some 6%Z)].
Proof. reflexivity. Qed.

Lemma position_never_returns_flat_witness :
  exists st1 st2,
    run_loop 1 3 (init_state (bar 1 10)) (firstn 4 zigzag_rows) = Ok st1 /\
    run_loop 1 3 st1 (skipn 4 zigzag_rows) = Ok st2 /\
    position st1 <> 0%Z /\ position st2 <> 0%Z.
Proof.
  eexists _, _.
  split; [vm_compute; reflexivity|].
  split; [vm_compute; reflexivity|].
  assert (Hnz : (-1 <> 0)%Z) by lia.
  split; [exact Hnz|].
  apply (position_never_returns_flat 1 3 (bar 1 10) (firstn 4 zigzag_rows)
           (skipn 4 zigzag_rows) _ _
           ltac:(vm_compute; reflexivity) ltac:(vm_compute; reflexivity)).
  exact Hnz.
Defined.

Lemma returned_log_is_chained_witness :
  exists curve ts,
    run_strategy 1 3 zigzag_rows = Ok (curve, ts) /\ chained ts.
Proof.
  destruct zigzag_run as [[curve ts] H].
  exists curve, ts. split; [exact H|].
  apply (returned_log_is_chained 1 3 zigzag_rows curve ts H).
Defined.

Lemma trade_count_bound_witness :
  exists curve ts,
    run_strategy 1 3 zigzag_rows = Ok (curve, ts) /\
    (Z.of_nat (length ts) <= 3)%Z.
Proof.
  destruct zigzag_run as [[curve ts] H].
  exists curve, ts. split; [exact H|].
  apply (trade_count_bound 1 3 zigzag_rows curve ts H).
Defined.

Lemma trades_are_made_at_bar_closes_witness :
  exists curve ts,
    run_strategy 1 3 zigzag_rows = Ok (curve, ts) /\
    Forall (fun tr =>
              at_bar (skipn 3 zigzag_rows) (Trade.time tr) (Trade.price tr) /\
              exists xt xp,
                Trade.exit_time tr = Some xt /\ Trade.exit_price tr = Some xp /\
                at_bar (skipn 3 zigzag_rows) xt xp) ts.
Proof.
  destruct zigzag_run as [[curve ts] H].
  exists curve, ts. split; [exact H|].
  apply (trades_are_made_at_bar_closes 1 3 zigzag_rows curve ts H).
Defined.

Lemma exit_not_before_entry_witness :
  exists curve ts,
    run_strategy 1 3 zigzag_rows = Ok (curve, ts) /\
    Forall (fun tr => exists xt, Trade.exit_time tr = Some xt /\
                                 (Trade.time tr <= xt)%Z) ts.
Proof.
  destruct zigzag_run as [[curve ts] H].
  exists curve, ts. split; [exact H|].
  apply (exit_not_before_entry 1 3 zigzag_rows curve ts zigzag_sorted H).
Defined.

Lemma run_strategy_returns_iff_witness :
  exists curve ts, run_strategy 1 3 zigzag_rows = Ok (curve, ts).
Proof.
  apply (proj2 (run_strategy_returns_iff 1 3 ltac:(lia) ltac:(lia))
           (bar 1 10) (tl zigzag_rows)).
  split.
  - intros H. discriminate H.
  - simpl. repeat constructor; intros H; discriminate H.
Defined.

Lemma trade_frequency_of_returned_log_witness :
  exists curve ts f,
    run_strategy 1 3 zigzag_rows = Ok (curve, ts) /\
    trade_frequency ts = Ok f /\ 0 <= f.
Proof.
  destruct zigzag_run as [[curve ts] H].
  destruct (trade_frequency_of_returned_log 1 3 zigzag_rows curve ts H)
    as (f & Hf & Hpos).
  exists curve, ts, f. split; [exact H|]. split; [exact Hf|].
  apply Hpos. exact zigzag_sorted.
Defined.

(** ** The symmetry of the position block *)




(** ** Degenerate windows *)

Section DegenerateWindows.

Variables SHORT_WINDOW LONG_WINDOW : Z.

(** On a well-formed log the only exception of a bar is a division by
    zero. *)
Lemma step_Raise (st : State) (row : Row) (e : exn) :
  log_inv (position st) (trades st) ->
  step SHORT_WINDOW LONG_WINDOW st row = Raise e ->
  e = ZeroDivisionError.
Proof.
  intros Hinv H. unfold step in H.
  apply bind_Raise in H. destruct H as [H | ([p ts] & _ & H)].
  - unfold signal_block in H. destruct (eligible _ _); [|discriminate H].
    unfold crossover, short_ma, long_ma, prev_short_ma, prev_long_ma in H.
    repeat (apply bind_Raise in H;
            destruct H as [H | (? & _ & H)];
            [apply fdiv_Raise in H; exact H|]).
    destruct (transition_spec _ _
                (Qle_bool x1 x2 && Qlt_bool x0 x)
                (Qle_bool x2 x1 && Qlt_bool x x0)
                (Datetime row) (Close row) Hinv) as (p' & ts' & E & _).
    rewrite E in H. discriminate H.
  - apply bind_Raise in H. destruct H as [H | (q & _ & H)];
      [apply fdiv_Raise in H; exact H | discriminate H].
Qed.

(** With a zero window the bar that evaluates the crossover raises. *)
Lemma step_zero_window (st : State) (row : Row) :
  SHORT_WINDOW = 0%Z \/ LONG_WINDOW = 0%Z ->
  eligible LONG_WINDOW (closes st ++ [Close row]) = true ->
  step SHORT_WINDOW LONG_WINDOW st row = Raise ZeroDivisionError.
Proof.
  intros Hz He. unfold step, signal_block. rewrite He.
  unfold crossover, short_ma, long_ma.
  destruct (Z.eq_dec SHORT_WINDOW 0) as [HS | HS].
  - rewrite HS. rewrite fdiv_zero by reflexivity. reflexivity.
  - destruct Hz as [Hz | Hz]; [contradiction|].
    rewrite (fdiv_Ok _ (inject_Z SHORT_WINDOW))
      by (rewrite inject_Z_zero; exact HS).
    cbn [bind]. rewrite Hz. rewrite fdiv_zero by reflexivity. reflexivity.
Qed.

Lemma run_loop_zero_window (rows : list Row) (st : State) :
  SHORT_WINDOW = 0%Z \/ LONG_WINDOW = 0%Z ->
  log_inv (position st) (trades st) ->
  rows <> [] ->
  (LONG_WINDOW < Z.of_nat (length (closes st) + length rows))%Z ->
  run_loop SHORT_WINDOW LONG_WINDOW st rows = Raise ZeroDivisionError.
Proof.
  intros Hz. revert st.
  induction rows as [|row rows IH]; intros st Hinv Hne Hlen; [contradiction|].
  simpl.
  destruct (eligible LONG_WINDOW (closes st ++ [Close row])) eqn:He.
  - rewrite (step_zero_window st row Hz He). reflexivity.
  - destruct (step SHORT_WINDOW LONG_WINDOW st row) as [st1|e] eqn:Hstep.
    + cbn [bind].
      destruct (step_log _ _ _ _ _ Hinv Hstep) as [Hinv1 _].
      destruct (step_inv _ _ _ _ _ Hstep) as (_ & _ & Hcl & _).
      unfold eligible in He. rewrite length_app in He. simpl length in *.
      rewrite Z.gtb_ltb, Z.ltb_ge in He.
      apply (IH st1 Hinv1).
      * destruct rows; [simpl in Hlen; lia | discriminate].
      * rewrite Hcl, length_app. simpl length. lia.
    + cbn [bind]. rewrite (step_Raise st row e Hinv Hstep). reflexivity.
Qed.

(** X20: when SHORT_WINDOW or LONG_WINDOW is 0, [run_strategy] raises
    ZeroDivisionError on every sequence of more than [LONG_WINDOW] bars
    (and at least one): the first bar whose crossover is evaluated divides
    by the window. *)
Theorem zero_window_raises (rows : list Row) :
  SHORT_WINDOW = 0%Z \/ LONG_WINDOW = 0%Z ->
  rows <> [] ->
  (LONG_WINDOW < Z.of_nat (length rows))%Z ->
  run_strategy SHORT_WINDOW LONG_WINDOW rows = Raise ZeroDivisionError.
Proof.
  intros Hz Hne Hlen.
  destruct rows as [|first rows]; [contradiction|].
  unfold run_strategy. rewrite index_0_cons. cbn [bind].
  rewrite (run_loop_zero_window (first :: rows) (init_state first) Hz
             (init_state_log first) Hne Hlen).
  reflexivity.
Qed.

(** While flat with equal windows, a bar sees no crossover: the short and
    the long average are the same number. *)
Lemma signal_block_equal_windows (st : State) (row : Row)
    (p : Z) (ts : list Trade.t) :
  SHORT_WINDOW = LONG_WINDOW ->
  position st = 0%Z -> trades st = [] ->
  signal_block SHORT_WINDOW LONG_WINDOW st row (closes st ++ [Close row])
  = Ok (p, ts) ->
  p = 0%Z /\ ts = [].
Proof.
  intros Heq Hp Ht H. unfold signal_block in H.
  destruct (eligible _ _).
  - unfold crossover in H.
    inv_bind H. rename a into sm, Ha into Esm.
    inv_bind H. rename a into lm, Ha into Elm.
    inv_bind H. inv_bind H.
    assert (E : sm = lm).
    { unfold short_ma in Esm. unfold long_ma in Elm.
      rewrite Heq in Esm. rewrite Esm in Elm. injection Elm as ->.
      reflexivity. }
    rewrite E in H.
    replace (Qlt_bool lm lm) with false in H
      by (symmetry; apply Qlt_bool_false; lra).
    rewrite !andb_false_r, Hp, Ht in H. simpl in H.
    injection H as <- <-. split; reflexivity.
  - rewrite Hp, Ht in H. injection H as <- <-. split; reflexivity.
Qed.

Lemma run_loop_equal_windows (rows : list Row) (st st' : State) :
  SHORT_WINDOW = LONG_WINDOW ->
  position st = 0%Z -> trades st = [] ->
  run_loop SHORT_WINDOW LONG_WINDOW st rows = Ok st' ->
  position st' = 0%Z /\ trades st' = [].
Proof.
  intros Heq. revert st.
  induction rows as [|row rows IH]; intros st Hp Ht H; simpl in H.
  - injection H as <-. split; assumption.
  - inv_bind H. rename a into st1.
    destruct (step_inv _ _ _ _ _ Ha) as (Hsig & _).
    destruct (signal_block_equal_windows _ _ _ _ Heq Hp Ht Hsig) as [Hp1 Ht1].
    apply (IH st1 Hp1 Ht1 H).
Qed.

(** X21: with SHORT_WINDOW equal to LONG_WINDOW the two moving averages
    coincide and no crossover is ever seen: the position is flat after
    every bar, and whatever [run_strategy] returns has no trade. *)
Theorem equal_windows_make_no_trade (rows : list Row)
    (curve : list (Z * Q)) (ts : list Trade.t) :
  SHORT_WINDOW = LONG_WINDOW ->
  run_strategy SHORT_WINDOW LONG_WINDOW rows = Ok (curve, ts) ->
  ts = [] /\
  forall first n st,
    index rows 0 = Ok first ->
    run_loop SHORT_WINDOW LONG_WINDOW (init_state first) (firstn n rows)
    = Ok st ->
    position st = 0%Z /\ trades st = [].
Proof.
  intros Heq H.
  destruct (run_strategy_inv _ _ _ _ _ H)
    as (first & _ & st & _ & _ & Hrun & -> & Hts).
  destruct (run_loop_equal_windows rows (init_state first) st Heq)
    as [_ Ht]; try reflexivity; try assumption.
  rewrite Ht in Hts. injection Hts as <-. split; [reflexivity|].
  intros first' n st' _ Hrun'.
  apply (run_loop_equal_windows (firstn n rows) (init_state first') st' Heq);
    try reflexivity; assumption.
Qed.

Lemma run_loop_curve_prefix (rows : list Row) (st st' : State) :
  run_loop SHORT_WINDOW LONG_WINDOW st rows = Ok st' ->
  exists tail, eq_curve st' = eq_curve st ++ tail.
Proof.
  revert st. induction rows as [|row rows IH]; intros st H; simpl in H.
  - injection H as <-. exists []. now rewrite app_nil_r.
  - inv_bind H. destruct (IH _ H) as (tail & ->).
    destruct (step_inv _ _ _ _ _ Ha) as (_ & _ & _ & _ & _ & _ & ->).
    eexists. rewrite <- app_assoc. reflexivity.
Qed.

(** X22: whenever [run_strategy] returns, the first point of the equity
    curve carries the first bar's timestamp and the value 1, whatever the
    windows: the first return is taken against the first close itself. *)
Theorem equity_curve_starts_at_one (rows : list Row)
    (curve : list (Z * Q)) (ts : list Trade.t) :
  run_strategy SHORT_WINDOW LONG_WINDOW rows = Ok (curve, ts) ->
  exists first p rest,
    index rows 0 = Ok first /\ curve = p :: rest /\
    fst p = Datetime first /\ snd p == 1.
Proof.
  intros H.
  destruct (run_strategy_inv _ _ _ _ _ H)
    as (first & _ & st & H0 & _ & Hrun & -> & _).
  destruct rows as [|row rows]; [rewrite index_nil in H0; discriminate H0|].
  pose proof H0 as H0'. rewrite index_0_cons in H0'. injection H0' as ->.
  simpl in Hrun. inv_bind Hrun. rename a into s1.
  destruct (step_inv _ _ _ _ _ Ha) as (_ & Hlc & _ & Hret & Heq & _ & Hcurve).
  destruct (run_loop_curve_prefix _ _ _ Hrun) as (tail & ->).
  rewrite Hcurve. simpl in *.
  exists first, (Datetime first, equity s1), tail.
  repeat split; try assumption.
  simpl. rewrite Heq, Hret. field. exact Hlc.
Qed.

End DegenerateWindows.

Lemma zero_window_raises_witness :
  run_strategy 0 3 spike_rows = Raise ZeroDivisionError.
Proof.
  apply (zero_window_raises 0 3 spike_rows).
  - left. reflexivity.
  - discriminate.
  - simpl. lia.
Defined.

Lemma equal_windows_make_no_trade_witness :
  exists curve,
    run_strategy 2 2 zigzag_rows = Ok (curve, []).
Proof.
  assert (H : {r | run_strategy 2 2 zigzag_rows = Ok r})
    by (eexists; vm_compute; reflexivity).
  destruct H as [[curve ts] H].
  exists curve.
  destruct (equal_windows_make_no_trade 2 2 zigzag_rows curve ts eq_refl H)
    as [E _].
  rewrite <- E. exact H.
Defined.

Lemma equity_curve_starts_at_one_witness :
  exists curve ts first p rest,
    run_strategy 1 3 zigzag_rows = Ok (curve, ts) /\
    index zigzag_rows 0 = Ok first /\ curve = p :: rest /\
    fst p = Datetime first /\ snd p == 1.
Proof.
  destruct zigzag_run as [[curve ts] H].
  destruct (equity_curve_starts_at_one 1 3 zigzag_rows curve ts H)
    as (first & p & rest & H0 & Hc & Hf & Hs).
  exists curve, ts, first, p, rest. repeat split; assumption.
Defined.

(** ** MAR of a curve that never falls *)

(** X23: when [calc_metrics] returns on a curve whose first value is
    positive and whose values never decrease, the max drawdown it returns
    is 0 and the MAR ratio it returns is 0. *)
Theorem mar_of_rising_curve (fpow : number -> Q -> result number)
    (fsqrt : Q -> Q) (eq_curve : list (Z * Q)) (first : Z * Q)
    (a s m : number) (d : Q) :
  index eq_curve 0 = Ok first ->
  0 < snd first ->
  Sorted Qle (map snd eq_curve) ->
  calc_metrics fpow fsqrt eq_curve = Ok (a, s, d, m) ->
  d == 0 /\ m = Float 0.
Proof.
  intros H0 Hpos Hs H.
  unfold calc_metrics in H.
  apply bind_Ok in H. destruct H as (a' & _ & H).
  apply bind_Ok in H. destruct H as (s' & _ & H).
  apply bind_Ok in H. destruct H as (d' & Hd & H).
  apply bind_Ok in H. destruct H as (m' & Hm & H).
  injection H as <- <- <- <-.
  assert (Hz : d' == 0).
  { destruct eq_curve as [|p curve]; [rewrite index_nil in H0; discriminate H0|].
    rewrite index_0_cons in H0. injection H0 as ->.
    unfold max_drawdown in Hd. rewrite index_0_cons in Hd. cbn [bind] in Hd.
    assert (Hs' : Sorted Qle (snd first :: map snd (first :: curve))).
    { constructor; [exact Hs|]. constructor. simpl. lra. }
    apply (dd_loop_zero_iff _ _ Hpos) in Hs'.
    destruct Hs' as (d0 & Hd0 & Hz). rewrite Hd in Hd0. injection Hd0 as ->.
    exact Hz. }
  split; [exact Hz|].
  apply Qeq_bool_iff in Hz. rewrite Hz in Hm. simpl in Hm.
  injection Hm as <-. reflexivity.
Qed.

Lemma mar_of_rising_curve_witness :
  exists a s d m,
    calc_metrics ipow (fun x => x)
      [(0%Z, 1); (900%Z, 1); (1800%Z, 2); (31536000%Z, 6)] = Ok (a, s, d, m) /\
    d == 0 /\ m = Float 0.
Proof.
  assert (H : {r | calc_metrics ipow (fun x => x)
                     [(0%Z, 1); (900%Z, 1); (1800%Z, 2); (31536000%Z, 6)]
                   = Ok r})
    by (eexists; vm_compute; reflexivity).
  destruct H as [[[[a s] d] m] H].
  exists a, s, d, m. split; [exact H|].
  apply (mar_of_rising_curve ipow (fun x => x)
           [(0%Z, 1); (900%Z, 1); (1800%Z, 2); (31536000%Z, 6)]
           (0%Z, 1) a s m d eq_refl ltac:(reflexivity)); [|exact H].
  simpl. repeat constructor; intros C; discriminate C.
Defined.
